(** * BTprinter: the receipt rendering pipeline and its request dispatch

    A shallow embedding of the TypeScript sources of the repository:

    - [escpos-commands.ts] and its later copy (second half of [app.js]):
      the ESC/POS command codec;
    - the width-aware invoice formatter (second half of
      [BluetoothDeviceSelector.tsx]): [wrapText], [centerWrap],
      [leftRightTextWrapped], [formatInvoice];
    - [invoiceFormatter.ts] ([unnamed/part_002]): the fixed-width
      [formatInvoice];
    - the two TCP [data] handlers of [App.tsx].

    JavaScript strings are sequences of UTF-16 code units; they are modelled
    as lists of code units, so that [length] counts what the source counts,
    and they have no maximal length. Widths, sizes and feed counts are
    integer-valued numbers ([Z]); monetary amounts are IEEE doubles in the
    source and are kept behind an interface ([JSNumber]) that is
    instantiated with the integers for concrete runs. *)

From Stdlib Require Import String Ascii.
From Stdlib Require Import ZArith NArith List Lia Bool.
From Stdlib Require DecimalString.
Import ListNotations.

Local Open Scope Z_scope.

(** ** JavaScript strings and the library functions the sources call *)

Module JS.

Definition char := N.
Definition jsstring := list char.

(** A source literal made of ASCII characters. *)
Definition lit (s : string) : jsstring :=
  map N_of_ascii (list_ascii_of_string s).

Definition LF : char := 10%N.
Definition CR : char := 13%N.
Definition SP : char := 32%N.

Definition CRLF : jsstring := [CR; LF].

(** [s.length] *)
Definition len (s : jsstring) : Z := Z.of_nat (List.length s).

(** [ToUint16], applied by [String.fromCharCode] to its argument. *)
Definition toUint16 (n : Z) : Z := n mod 65536.

(** [String.fromCharCode(n)] for an integer-valued [n]. *)
Definition fromCharCode (n : Z) : jsstring := [Z.to_N (toUint16 n)].

(** [ToInt32], applied by the bit operators to their operands. *)
Definition toInt32 (n : Z) : Z := (n + 2147483648) mod 4294967296 - 2147483648.

(** [a & b] *)
Definition bitand (a b : Z) : Z := Z.land (toInt32 a) (toInt32 b).

(** [a >> k] for a shift count [0 <= k < 32] *)
Definition sar (a k : Z) : Z := Z.shiftr (toInt32 a) k.

(** What the outcome of a call can be: a value, an exception, or a loop
    that was still running when the fuel ran out. *)
Inductive jsError := RangeError | TypeError | SyntaxError | TransportError.

Inductive outcome (A : Type) : Type :=
| Ret (a : A)
| Throw (e : jsError)
| OutOfFuel.
Arguments Ret {A} a.
Arguments Throw {A} e.
Arguments OutOfFuel {A}.

Definition bind {A B} (m : outcome A) (k : A -> outcome B) : outcome B :=
  match m with
  | Ret a => k a
  | Throw e => Throw e
  | OutOfFuel => OutOfFuel
  end.

(** Index arguments of [substring] are clamped into [0, length]. *)
Definition clampIndex (s : jsstring) (i : Z) : nat :=
  Z.to_nat (Z.min (Z.max i 0) (len s)).

(** [s.substring(a, b)]: both ends clamped, swapped when [a > b]. *)
Definition substring (s : jsstring) (a b : Z) : jsstring :=
  let a' := clampIndex s a in
  let b' := clampIndex s b in
  firstn (Nat.max a' b' - Nat.min a' b') (skipn (Nat.min a' b') s).

(** [s.substring(a)] *)
Definition substringFrom (s : jsstring) (a : Z) : jsstring :=
  skipn (clampIndex s a) s.

(** [s.slice(a)]: a negative start counts from the end. *)
Definition slice (s : jsstring) (a : Z) : jsstring :=
  let from := if a <? 0 then Z.max (len s + a) 0 else Z.min a (len s) in
  skipn (Z.to_nat from) s.

Definition eqb (s t : jsstring) : bool :=
  if list_eq_dec N.eq_dec s t then true else false.

(** [s.startsWith(p)] *)
Fixpoint startsWith (s p : jsstring) {struct p} : bool :=
  match p, s with
  | [], _ => true
  | _ :: _, [] => false
  | c :: p', d :: s' => N.eqb c d && startsWith s' p'
  end.

(** [s.endsWith(p)] *)
Definition endsWith (s p : jsstring) : bool :=
  startsWith (rev s) (rev p).

(** [s.indexOf(p)]: the first position at which [p] occurs, or [-1]. *)
Fixpoint indexOfFrom (s p : jsstring) (pos : Z) : Z :=
  if startsWith s p then pos
  else match s with
       | [] => -1
       | _ :: s' => indexOfFrom s' p (pos + 1)
       end.

Definition indexOf (s p : jsstring) : Z := indexOfFrom s p 0.

(** The code units [trim] removes: WhiteSpace and LineTerminator. *)
Definition isWhiteSpace (c : char) : bool :=
  let z := Z.of_N c in
  ((9 <=? z) && (z <=? 13)) || (z =? 32) || (z =? 160) || (z =? 5760)
  || ((8192 <=? z) && (z <=? 8202)) || (z =? 8232) || (z =? 8233)
  || (z =? 8239) || (z =? 8287) || (z =? 12288) || (z =? 65279).

Fixpoint trimStart (s : jsstring) : jsstring :=
  match s with
  | c :: s' => if isWhiteSpace c then trimStart s' else s
  | [] => []
  end.

Definition trimEnd (s : jsstring) : jsstring := rev (trimStart (rev s)).

(** [s.trim()] *)
Definition trim (s : jsstring) : jsstring := trimEnd (trimStart s).

(** [s.split(sep)] for a separator of one code unit: never empty. *)
Fixpoint splitOn (sep : char) (s : jsstring) : list jsstring :=
  match s with
  | [] => [[]]
  | c :: s' =>
      if N.eqb c sep then [] :: splitOn sep s'
      else match splitOn sep s' with
           | l :: ls => (c :: l) :: ls
           | [] => [[c]]
           end
  end.

(** [lines.join(sep)] *)
Fixpoint join (sep : jsstring) (ls : list jsstring) : jsstring :=
  match ls with
  | [] => []
  | [l] => l
  | l :: ls' => l ++ sep ++ join sep ls'
  end.

(** [count] copies of [s], for a count known to be non-negative. *)
Definition copies (s : jsstring) (count : nat) : jsstring :=
  concat (List.repeat s count).

(** [s.repeat(count)]: a negative count is a [RangeError]. *)
Definition repeatStr (s : jsstring) (count : Z) : outcome jsstring :=
  if count <? 0 then Throw RangeError
  else Ret (copies s (Z.to_nat count)).

(** [s.padEnd(n)]: filled with spaces up to [n] code units. *)
Definition padEnd (s : jsstring) (n : Z) : jsstring :=
  s ++ copies [SP] (Z.to_nat (n - len s)).

(** [Math.floor(a / 2)] on integers. *)
Definition floorHalf (a : Z) : Z := a / 2.

End JS.

Import JS.

Notation "x <- m ;; k" := (bind m (fun x => k))
  (at level 61, m at next level, right associativity).

(** ** escpos-commands.ts

    Parameters with a default value ([moduleSize = 4], [totalWidth = 48],
    [char = '.']) are explicit here; the callers pass the default. *)

Module EscposCommands.

(** Lines 25-42. *)
Definition setTextSize (level : Z) : jsstring :=
  if level =? 1 then [0x1D; 0x21; 0x11]%N
  else if level =? 2 then [0x1D; 0x21; 0x22]%N
  else [0x1D; 0x21; 0x00]%N.

(** Lines 50-78: the constants of [printQRCode], then the function. *)
Definition modelCommand : jsstring :=
  [0x1D; 0x28; 0x6B; 0x04; 0x00; 0x31; 0x41; 0x32; 0x00]%N.

Definition sizeCommand (size : Z) : jsstring :=
  [0x1D; 0x28; 0x6B; 0x03; 0x00; 0x31; 0x43]%N ++ fromCharCode size.

Definition errorCommand : jsstring :=
  [0x1D; 0x28; 0x6B; 0x03; 0x00; 0x31; 0x45]%N ++ fromCharCode 51.

Definition storeCommand (data : jsstring) : jsstring :=
  let storeLen := len data + 3 in
  let pL := fromCharCode (bitand storeLen 0xff) in
  let pH := fromCharCode (bitand (sar storeLen 8) 0xff) in
  [0x1D; 0x28; 0x6B]%N ++ pL ++ pH ++ [0x31; 0x50; 0x30]%N ++ data.

Definition printCommand : jsstring :=
  [0x1D; 0x28; 0x6B; 0x03; 0x00; 0x31; 0x51; 0x30]%N.

Definition centerOn : jsstring := [0x1B]%N ++ lit "a" ++ fromCharCode 1.
Definition centerOff : jsstring := [0x1B]%N ++ lit "a" ++ fromCharCode 0.

Definition printQRCode (data : jsstring) (moduleSize : Z) : jsstring :=
  let size := Z.max 1 (Z.min moduleSize 8) in
  centerOn ++ modelCommand ++ sizeCommand size ++ errorCommand
    ++ storeCommand data ++ printCommand ++ centerOff.

(** Lines 88-100. *)
Definition printQRCodeWithLevel (data : jsstring) (level : Z) : jsstring :=
  let moduleSize :=
    if level =? 1 then 16
    else if level =? 2 then 6
    else if level =? 3 then 4
    else 2 in
  printQRCode data moduleSize.

(** Lines 105-148. *)
Definition addBreaks (n : Z) : jsstring :=
  [0x1B]%N ++ lit "d" ++ fromCharCode n.

Definition centerText : jsstring := [0x1B; 0x61; 0x01]%N.

Definition boldText : jsstring := [0x1B; 0x45; 0x01]%N.

Definition dottedLine (length : Z) (char : jsstring) : outcome jsstring :=
  r <- repeatStr char length ;; Ret (r ++ [LF]).

Definition straightLine (length : Z) (char : jsstring) : outcome jsstring :=
  r <- repeatStr char length ;; Ret (r ++ [LF]).

Definition rightAlignText : jsstring := [0x1B; 0x61; 0x02]%N.

Definition reset : jsstring := [0x1B; 0x40]%N.

(** Lines 158-164. The count of [" ".repeat] is positive where it is
    called. *)
Definition leftRightText (left right : jsstring) (totalWidth : Z) : jsstring :=
  let leftLength := len left in
  let rightLength := len right in
  let spacesCount := totalWidth - leftLength - rightLength in
  let spaces :=
    if spacesCount >? 0 then copies [SP] (Z.to_nat spacesCount) else [] in
  left ++ spaces ++ right.

End EscposCommands.

(** ** The later copy of the codec (second half of app.js, lines 75-177)

    It differs from [escpos-commands.ts] in [setTextSize] (levels below 1
    select the largest size), in the error-correction byte of the QR command
    and in [centerText], which takes the printer width and ignores it. *)

Module EscposCommands2.

Definition setTextSize (level : Z) : jsstring :=
  if level <=? 1 then [0x1D; 0x21; 0x11]%N
  else if level =? 2 then [0x1D; 0x21; 0x22]%N
  else [0x1D; 0x21; 0x00]%N.

Definition modelCommand : jsstring :=
  [0x1D; 0x28; 0x6B; 0x04; 0x00; 0x31; 0x41; 0x32; 0x00]%N.

Definition sizeCommand (size : Z) : jsstring :=
  [0x1D; 0x28; 0x6B; 0x03; 0x00; 0x31; 0x43]%N ++ fromCharCode size.

Definition errorCommand : jsstring :=
  [0x1D; 0x28; 0x6B; 0x03; 0x00; 0x31; 0x45]%N ++ fromCharCode 48.

Definition storeCommand (data : jsstring) : jsstring :=
  let storeLen := len data + 3 in
  let pL := fromCharCode (bitand storeLen 0xff) in
  let pH := fromCharCode (bitand (sar storeLen 8) 0xff) in
  [0x1D; 0x28; 0x6B]%N ++ pL ++ pH ++ [0x31; 0x50; 0x30]%N ++ data.

Definition printCommand : jsstring :=
  [0x1D; 0x28; 0x6B; 0x03; 0x00; 0x31; 0x51; 0x30]%N.

Definition centerOn : jsstring := [0x1B; 0x61; 0x01]%N.
Definition centerOff : jsstring := [0x1B; 0x61; 0x00]%N.

Definition printQRCode (data : jsstring) (moduleSize : Z) : jsstring :=
  let size := Z.max 1 (Z.min moduleSize 8) in
  centerOn ++ modelCommand ++ sizeCommand size ++ errorCommand
    ++ storeCommand data ++ printCommand ++ centerOff.

Definition addBreaks (n : Z) : jsstring :=
  [0x1B]%N ++ lit "d" ++ fromCharCode n.

Definition centerText (width : Z) : jsstring := [0x1B; 0x61; 0x01]%N.

Definition boldText : jsstring := [0x1B; 0x45; 0x01]%N.

Definition dottedLine (length : Z) (char : jsstring) : outcome jsstring :=
  r <- repeatStr char length ;; Ret (r ++ [LF]).

Definition rightAlignText : jsstring := [0x1B; 0x61; 0x02]%N.

Definition reset : jsstring := [0x1B; 0x40]%N.

Definition leftRightText (left right : jsstring) (totalWidth : Z) : jsstring :=
  let leftLength := len left in
  let rightLength := len right in
  let spacesCount := totalWidth - leftLength - rightLength in
  let spaces :=
    if spacesCount >? 0 then copies [SP] (Z.to_nat spacesCount) else [] in
  left ++ spaces ++ right.

End EscposCommands2.

(** ** The invoice document

    The [Invoice] interface of the formatters, with the [printerWidth]
    extension of [App.tsx]. An optional field is [None] when it is absent
    ([undefined]); the object is well formed when every present field has the
    type the interface declares, which is what the record types enforce. *)

Module InvoiceModel.

(** The operations the formatters apply to monetary amounts. *)
Class JSNumber (num : Type) : Type := {
  num_zero : num;                    (* the literal [0] *)
  num_sub : num -> num -> num;       (* [a - b] *)
  num_toString : num -> jsstring;    (* [n.toString()], [n + "L"], [`${n}`] *)
  num_toFixed2 : num -> jsstring;    (* [Number(n).toFixed(2)] *)
  num_truthy : num -> bool           (* neither [0] nor [NaN] *)
}.

Section Documents.
Context {num : Type}.

Record LineItem : Type := {
  productName : option jsstring;
  quantity : option num;
  price : option num;
  fullPrice : option num;
  discountAmount : option num;
  uom : option jsstring
}.

Record VatItem : Type := {
  vatType : option jsstring;
  amount : option num
}.

Record Invoice : Type := {
  header : option jsstring;
  invoiceType : option jsstring;
  invNumber : option (num + jsstring);
  tin : option jsstring;
  address : option jsstring;
  fiscString : option jsstring;
  opCode : option jsstring;
  buCode : option jsstring;
  Date : option jsstring;
  FiscDateRange : option jsstring;
  TaxPointDate : option jsstring;
  lines : option (list LineItem);
  totalPriceNoVat : option num;
  vat : option (list VatItem);
  totalDiscount : option num;
  totalPrice : option num;
  Exrate : option num;
  CustomerName : option jsstring;
  CustomerTin : option jsstring;
  CustomerContact : option jsstring;
  CustomerAddress : option jsstring;
  qrCode : option jsstring;
  qrSize : option Z;
  IIC : option jsstring;
  FIC : option jsstring;
  EIC : option jsstring;
  Footer : option jsstring;
  printerWidth : option Z
}.

(** What [formatInvoice] can be handed at run time: the result of
    [JSON.parse] or any other value. [VObject] holds the well-formed
    invoice objects; objects of another shape are not represented. *)
Inductive value : Type :=
| VUndefined
| VNull
| VBoolean (b : bool)
| VNumber (n : num)
| VString (s : jsstring)
| VBigInt (z : Z)
| VSymbol
| VFunction
| VObject (invoice : Invoice).

(** [typeof v] *)
Definition typeof (v : value) : jsstring :=
  match v with
  | VUndefined => lit "undefined"
  | VNull => lit "object"
  | VBoolean _ => lit "boolean"
  | VNumber _ => lit "number"
  | VString _ => lit "string"
  | VBigInt _ => lit "bigint"
  | VSymbol => lit "symbol"
  | VFunction => lit "function"
  | VObject _ => lit "object"
  end.

(** [ToBoolean v], as applied by [!v]. *)
Definition truthy `{JSNumber num} (v : value) : bool :=
  match v with
  | VUndefined | VNull => false
  | VBoolean b => b
  | VNumber n => num_truthy n
  | VString s => negb (eqb s [])
  | VBigInt z => negb (z =? 0)
  | VSymbol | VFunction | VObject _ => true
  end.

(** [if (field)] on an optional string: present and not empty. *)
Definition truthyStr (field : option jsstring) : bool :=
  match field with
  | Some (_ :: _) => true
  | _ => false
  end.

(** [field ?? fallback], [field || fallback] on an optional string. *)
Definition orElse {A} (field : option A) (fallback : A) : A :=
  match field with
  | Some a => a
  | None => fallback
  end.

(** [text + field] where the field may be [undefined]. *)
Definition numToText `{JSNumber num} (field : option num) : jsstring :=
  match field with
  | Some n => num_toString n
  | None => lit "undefined"
  end.

(** [text + invoice.invNumber] *)
Definition invNumberText `{JSNumber num} (n : num + jsstring) : jsstring :=
  match n with
  | inl k => num_toString k
  | inr s => s
  end.

End Documents.

Arguments LineItem num : clear implicits.
Arguments VatItem num : clear implicits.
Arguments Invoice num : clear implicits.
Arguments value num : clear implicits.

(** The integer-valued amounts: subtraction is exact and the decimal
    expansion is what [toString] prints. *)
Definition decimal (z : Z) : jsstring :=
  lit (DecimalString.NilZero.string_of_int (Z.to_int z)).

#[export] Instance IntegerAmount : JSNumber Z := {
  num_zero := 0;
  num_sub := Z.sub;
  num_toString := decimal;
  num_toFixed2 := fun z => decimal z ++ lit ".00";
  num_truthy := fun z => negb (z =? 0)
}.

End InvoiceModel.

Import InvoiceModel.

(** Running a list of fallible steps in order, as [Array.prototype.map] and
    [forEach] do with a callback that may throw. *)
Fixpoint mapM {A B} (f : A -> outcome B) (l : list A) : outcome (list B) :=
  match l with
  | [] => Ret []
  | a :: l' => b <- f a ;; bs <- mapM f l' ;; Ret (b :: bs)
  end.

(** ** The width-aware formatter (second half of BluetoothDeviceSelector.tsx)

    Every function that reaches the [while] loop of [wrapText] takes the
    number of loop tests it may spend; [OutOfFuel] is a loop still running. *)

Module InvoiceFormatterW.

Import EscposCommands2.

(** [wrapText], lines 91-99: the [while] loop on [result] and [text]. *)
Fixpoint wrapText_loop (fuel : nat) (result text : jsstring) (width : Z)
  : outcome jsstring :=
  match fuel with
  | O => OutOfFuel
  | S fuel' =>
      if len text >? width then
        wrapText_loop fuel'
          (result ++ substring text 0 width ++ [LF])
          (substringFrom text width) width
      else Ret (result ++ text)
  end.

Definition wrapText (fuel : nat) (text : jsstring) (width : Z)
  : outcome jsstring :=
  wrapText_loop fuel [] text width.

(** [centerWrap], lines 104-112. *)
Definition centerWrap (fuel : nat) (text : jsstring) (width : Z)
  : outcome jsstring :=
  wrapped <- wrapText fuel text width ;;
  let lines := splitOn LF wrapped in
  padded <- mapM (fun line =>
                    let pad := floorHalf (width - len line) in
                    spaces <- repeatStr [SP] pad ;;
                    Ret (spaces ++ line)) lines ;;
  Ret (join [LF] padded).

(** [leftRightTextWrapped], lines 117-132: first the [forEach] over the
    wrapped lines of the left text, then the function. *)
Fixpoint leftLines_forEach (right : jsstring) (leftWidth : Z)
  (index : nat) (leftLines : list jsstring) (result : jsstring) : jsstring :=
  match leftLines with
  | [] => result
  | line :: rest =>
      let result' :=
        if Nat.eqb index 0 then result ++ padEnd line leftWidth ++ right
        else result ++ [LF] ++ line in
      leftLines_forEach right leftWidth (S index) rest result'
  end.

Definition leftRightTextWrapped (fuel : nat) (left right : jsstring)
  (totalWidth : Z) : outcome jsstring :=
  let rightLen := len right in
  let leftWidth := totalWidth - rightLen in
  if leftWidth <=? 0 then Ret (left ++ right)
  else
    wrappedLeft <- wrapText fuel left leftWidth ;;
    let leftLines := splitOn LF wrappedLeft in
    Ret (leftLines_forEach right leftWidth 0 leftLines []).

(** [dottedLineLocal], lines 137-139. *)
Definition dottedLineLocal (width : Z) : outcome jsstring :=
  dots <- repeatStr (lit ".") width ;; Ret (dots ++ [LF]).

Section Formatter.
Context {num : Type} `{JSNumber num}.

(** [formatInvoice], lines 182-329, section by section; each section
    returns what it appends to [commands].

    [wrapText(text, width) + "\n"] for a field that is printed when
    [present] holds. *)
Definition wrappedLine (fuel : nat) (present : bool) (text : jsstring)
  (width : Z) : outcome jsstring :=
  if present then w <- wrapText fuel text width ;; Ret (w ++ [LF])
  else Ret [].

Definition centeredLine (fuel : nat) (present : bool) (text : jsstring)
  (width : Z) : outcome jsstring :=
  if present then w <- centerWrap fuel text width ;; Ret (w ++ [LF])
  else Ret [].

Definition present {A} (field : option A) : bool :=
  match field with Some _ => true | None => false end.

(** Header section: what is appended to [commands] up to and including
    the first unconditional [reset()]. *)
Definition headerSection (fuel : nat) (invoice : Invoice num) (width : Z)
  : outcome jsstring :=
  h <- wrappedLine fuel (truthyStr (header invoice))
         (orElse (header invoice) []) width ;;
  t <- wrappedLine fuel (truthyStr (tin invoice))
         (orElse (tin invoice) []) width ;;
  a <- wrappedLine fuel (truthyStr (address invoice))
         (orElse (address invoice) []) width ;;
  let ty :=
    if truthyStr (invoiceType invoice)
    then boldText ++ setTextSize 1
           ++ orElse (invoiceType invoice) [] ++ [LF] ++ reset
    else [] in
  Ret (centerText width ++ h ++ t ++ a ++ ty ++ reset).

(** Invoice details, closed by the dotted line. *)
Definition detailsSection (fuel : nat) (invoice : Invoice num) (width : Z)
  : outcome jsstring :=
  n <- wrappedLine fuel (present (invNumber invoice))
         (lit "Nr. Fatures: "
            ++ match invNumber invoice with
               | Some k => invNumberText k
               | None => []
               end) width ;;
  f <- wrappedLine fuel (present (fiscString invoice))
         (orElse (fiscString invoice) []) width ;;
  b <- wrappedLine fuel (present (buCode invoice))
         (lit "Njesia e Biznesit: " ++ orElse (buCode invoice) []) width ;;
  o <- wrappedLine fuel (present (opCode invoice))
         (lit "Kodi Operatorit: " ++ orElse (opCode invoice) []) width ;;
  d <- wrappedLine fuel (present (Date invoice))
         (lit "Data: " ++ orElse (Date invoice) []) width ;;
  r <- wrappedLine fuel (present (FiscDateRange invoice))
         (lit "Periudha e faturimit: "
            ++ orElse (FiscDateRange invoice) []) width ;;
  t <- wrappedLine fuel (present (TaxPointDate invoice))
         (lit "Tax point date: " ++ orElse (TaxPointDate invoice) []) width ;;
  dots <- dottedLineLocal width ;;
  Ret (n ++ f ++ b ++ o ++ d ++ r ++ t ++ dots).

(** The right text of the discount row. *)
Definition rightDiscountText (discountAmount afterDiscount : num) : jsstring :=
  lit " -" ++ num_toString discountAmount ++ lit "L "
    ++ num_toString afterDiscount ++ lit "L".

(** The callback of [invoice.lines.forEach]: what one line item appends
    to [commands]. *)
Definition formatLine (fuel : nat) (width : Z) (line : LineItem num)
  : outcome jsstring :=
  match quantity line, price line with
  | Some q, Some p =>
      let leftText :=
        num_toString q ++ lit "  " ++ orElse (uom line) []
          ++ lit "  x " ++ num_toFixed2 p ++ lit "L" in
      first <- match fullPrice line with
               | Some fp =>
                   let rightText := num_toFixed2 fp ++ lit "L" in
                   r <- leftRightTextWrapped fuel leftText rightText width ;;
                   Ret (r ++ [LF])
               | None =>
                   w <- wrapText fuel leftText width ;; Ret (w ++ [LF])
               end ;;
      second <- match discountAmount line with
                | Some d =>
                    let leftDiscount := orElse (productName line) [] in
                    let afterDiscount :=
                      num_sub (orElse (fullPrice line) num_zero) d in
                    let rightDiscount := rightDiscountText d afterDiscount in
                    r <- leftRightTextWrapped fuel leftDiscount
                           rightDiscount width ;;
                    Ret (r ++ [LF])
                | None =>
                    let leftProd := orElse (productName line) [] in
                    r <- leftRightTextWrapped fuel leftProd [] width ;;
                    Ret (r ++ [LF])
                end ;;
      Ret (first ++ second)
  | _, _ => Ret []
  end.

(** Products section. *)
Definition productsSection (fuel : nat) (invoice : Invoice num) (width : Z)
  : outcome jsstring :=
  match lines invoice with
  | Some (l :: ls) =>
      rows <- mapM (formatLine fuel width) (l :: ls) ;;
      dots <- dottedLineLocal width ;;
      Ret (concat rows ++ dots)
  | _ => Ret []
  end.

Definition totalRow (fuel : nat) (label : jsstring) (field : option num)
  (width : Z) : outcome jsstring :=
  match field with
  | Some n =>
      r <- leftRightTextWrapped fuel label (num_toString n ++ lit "L") width ;;
      Ret (r ++ [LF])
  | None => Ret []
  end.

(** The callback of [invoice.vat.forEach]. *)
Definition formatVat (fuel : nat) (width : Z) (vatItem : VatItem num)
  : outcome jsstring :=
  match vatType vatItem, amount vatItem with
  | Some ty, Some a =>
      r <- leftRightTextWrapped fuel (lit "TVSH " ++ ty)
             (num_toString a ++ lit "L") width ;;
      Ret (r ++ [LF])
  | _, _ => Ret []
  end.

(** Totals, VAT rows and the grand total, up to the [reset()] that
    follows them. *)
Definition totalsSection (fuel : nat) (invoice : Invoice num) (width : Z)
  : outcome jsstring :=
  noVat <- totalRow fuel (lit "SHUMA PA TVSH") (totalPriceNoVat invoice) width ;;
  disc <- totalRow fuel (lit "ZBRITJA TOTALE") (totalDiscount invoice) width ;;
  vats <- match vat invoice with
          | Some (v :: vs) =>
              rows <- mapM (formatVat fuel width) (v :: vs) ;; Ret (concat rows)
          | _ => Ret []
          end ;;
  total <- match totalPrice invoice with
           | Some n =>
               r <- leftRightTextWrapped fuel (lit "SHUMA Leke")
                      (num_toString n ++ lit "L") width ;;
               Ret (boldText ++ r ++ [LF] ++ reset)
           | None => Ret []
           end ;;
  Ret (noVat ++ disc ++ vats ++ total ++ reset).

(** [field ? "\n" + field : ""] *)
Definition onNewLine (field : option jsstring) : jsstring :=
  if truthyStr field then [LF] ++ orElse field [] else [].

(** Customer block, line feed, QR code, fiscal identifiers, footer and
    the trailing feed. *)
Definition trailerSection (fuel : nat) (invoice : Invoice num) (width : Z)
  : outcome jsstring :=
  customer <- centerWrap fuel
                ((if truthyStr (CustomerName invoice)
                  then orElse (CustomerName invoice) [] else [])
                   ++ onNewLine (CustomerTin invoice)
                   ++ onNewLine (CustomerContact invoice)
                   ++ onNewLine (CustomerAddress invoice)) width ;;
  let qr :=
    if truthyStr (qrCode invoice)
    then printQRCode (orElse (qrCode invoice) [])
           (orElse (qrSize invoice) 7)
    else [] in
  iic <- centeredLine fuel (truthyStr (IIC invoice))
           (lit "IIC:" ++ orElse (IIC invoice) []) width ;;
  fic <- centeredLine fuel (truthyStr (FIC invoice))
           (lit "FIC:" ++ orElse (FIC invoice) []) width ;;
  eic <- centeredLine fuel (truthyStr (EIC invoice))
           (lit "EIC:" ++ orElse (EIC invoice) []) width ;;
  footer <- centeredLine fuel (truthyStr (Footer invoice))
              (orElse (Footer invoice) []) width ;;
  Ret (customer ++ [LF] ++ reset ++ addBreaks 1 ++ qr
         ++ iic ++ fic ++ eic ++ footer ++ addBreaks 4).

(** [formatInvoice(invoice, printerWidth)]: the guard of lines 183-186,
    the width of line 188 and the sections in their order. The last branch
    is never taken: a value that passes the guard is an object. *)
Definition formatInvoice (fuel : nat) (invoice : value num)
  (printerWidth : option Z) : outcome jsstring :=
  if negb (truthy invoice) || negb (eqb (typeof invoice) (lit "object"))
  then Ret []
  else
    match invoice with
    | VObject invoice =>
        let width :=
          match printerWidth with
          | Some w => if w =? 0 then 48 else w
          | None => 48
          end in
        head <- headerSection fuel invoice width ;;
        details <- detailsSection fuel invoice width ;;
        products <- productsSection fuel invoice width ;;
        totals <- totalsSection fuel invoice width ;;
        trailer <- trailerSection fuel invoice width ;;
        Ret (head ++ details ++ products ++ totals ++ trailer)
    | _ => Throw TypeError
    end.

End Formatter.

End InvoiceFormatterW.

(** ** invoiceFormatter.ts (unnamed/part_002): the fixed-width formatter

    It prints on 48 columns with the codec of [escpos-commands.ts], never
    wraps, and so has no loop. *)

Module InvoiceFormatter.

Import EscposCommands.

Section Formatter.
Context {num : Type} `{JSNumber num}.

(** [field + "\n"] for a field printed when it is truthy. *)
Definition plainLine (field : option jsstring) : jsstring :=
  if truthyStr field then orElse field [] ++ [LF] else [].

(** [label + field + "\n"] for a field printed when it is present. *)
Definition labelledLine (label : jsstring) (field : option jsstring)
  : jsstring :=
  match field with
  | Some s => label ++ s ++ [LF]
  | None => []
  end.

Definition rightDiscountText (discountAmount afterDiscount : num) : jsstring :=
  lit " -" ++ num_toString discountAmount ++ lit "L "
    ++ num_toString afterDiscount ++ lit "L".

(** The callback of [invoice.lines.forEach], lines 96-121. *)
Definition formatLine (line : LineItem num) : jsstring :=
  match quantity line, price line with
  | Some q, Some p =>
      let leftText :=
        num_toString q ++ lit "  " ++ orElse (uom line) []
          ++ lit "  x " ++ num_toFixed2 p ++ lit "L" in
      let first :=
        match fullPrice line with
        | Some fp =>
            let rightText := num_toFixed2 fp ++ lit "L" in
            leftRightText leftText rightText 48 ++ [LF]
        | None => leftText ++ [LF]
        end in
      let second :=
        match discountAmount line with
        | Some d =>
            let leftText := orElse (productName line) [] in
            let afterDiscount :=
              num_sub (orElse (fullPrice line) num_zero) d in
            let rightText := rightDiscountText d afterDiscount in
            leftRightText leftText rightText 48 ++ [LF]
        | None =>
            rightAlignText ++ numToText (fullPrice line) ++ [LF]
        end in
      first ++ second
  | _, _ => []
  end.

Definition totalRow (label : jsstring) (field : option num) : jsstring :=
  match field with
  | Some n => leftRightText label (num_toString n ++ lit "L") 48 ++ [LF]
  | None => []
  end.

(** The callback of [invoice.vat.forEach]. *)
Definition formatVat (vatItem : VatItem num) : jsstring :=
  match vatType vatItem, amount vatItem with
  | Some ty, Some a =>
      leftRightText (lit "TVSH " ++ ty) (num_toString a ++ lit "L") 48 ++ [LF]
  | _, _ => []
  end.

(** [formatInvoice], lines 51-203. *)
Definition formatInvoice (invoice : value num) : outcome jsstring :=
  if negb (truthy invoice) || negb (eqb (typeof invoice) (lit "object"))
  then Ret []
  else
    match invoice with
    | VObject invoice =>
        let head :=
          centerText ++ plainLine (header invoice) ++ plainLine (tin invoice)
            ++ plainLine (address invoice)
            ++ (if truthyStr (invoiceType invoice)
                then boldText ++ setTextSize 1
                       ++ orElse (invoiceType invoice) [] ++ [LF] ++ reset
                else [])
            ++ reset in
        let details :=
          (match invNumber invoice with
           | Some k => lit "Nr. Fatures: " ++ invNumberText k ++ [LF]
           | None => []
           end)
            ++ labelledLine (lit "Njesia e Biznesit: ") (buCode invoice)
            ++ labelledLine (lit "Kodi Operatorit: ") (opCode invoice)
            ++ labelledLine (lit "Data: ") (Date invoice) in
        dots <- dottedLine 48 (lit ".") ;;
        products <- match lines invoice with
                    | Some (l :: ls) =>
                        dots' <- dottedLine 48 (lit ".") ;;
                        Ret (concat (map formatLine (l :: ls)) ++ dots')
                    | _ => Ret []
                    end ;;
        let totals :=
          totalRow (lit "SHUMA PA TVSH") (totalPriceNoVat invoice)
            ++ totalRow (lit "ZBRITJA TOTALE") (totalDiscount invoice)
            ++ (match vat invoice with
                | Some (v :: vs) => concat (map formatVat (v :: vs))
                | _ => []
                end)
            ++ (match totalPrice invoice with
                | Some n =>
                    boldText
                      ++ leftRightText (lit "SHUMA Leke")
                           (num_toString n ++ lit "L") 48
                      ++ [LF] ++ reset
                | None => []
                end)
            ++ reset in
        separator <- (if truthyStr (CustomerName invoice)
                         || truthyStr (CustomerTin invoice)
                         || truthyStr (CustomerContact invoice)
                         || truthyStr (CustomerAddress invoice)
                      then dottedLine 48 (lit ".") else Ret []) ;;
        let customer :=
          centerText ++ separator
            ++ plainLine (CustomerName invoice)
            ++ plainLine (CustomerTin invoice)
            ++ plainLine (CustomerContact invoice)
            ++ plainLine (CustomerAddress invoice)
            ++ reset ++ addBreaks 1 in
        let qr :=
          if truthyStr (qrCode invoice)
          then printQRCode (orElse (qrCode invoice) [])
                 (orElse (qrSize invoice) 7)
          else [] in
        let codes :=
          centerText
            ++ (if truthyStr (IIC invoice)
                then lit "IIC: " ++ orElse (IIC invoice) [] ++ [LF] else [])
            ++ (if truthyStr (FIC invoice)
                then lit "FIC: " ++ orElse (FIC invoice) [] ++ [LF] else [])
            ++ plainLine (Footer invoice) in
        Ret (head ++ details ++ dots ++ products ++ totals ++ customer
               ++ qr ++ codes ++ addBreaks 4)
    | _ => Throw TypeError
    end.

End Formatter.

End InvoiceFormatter.

(** ** App.tsx: printing and the TCP data handlers

    [JSON.parse], the configured width and the Bluetooth transport are the
    collaborators of the handlers; they are parameters here. *)

Module Server.

Import InvoiceFormatterW.

(** The printer side of [App.tsx]. *)
Record Printer : Type := {
  connected : bool;                   (* the connection refs are set *)
  parsedWidth : option Z;             (* [parseInt(printerWidthRef.current, 10)],
                                         [None] for [NaN] *)
  writeToDevice : jsstring -> bool    (* whether the write resolves *)
}.

(** [Buffer.from(commands, 'latin1')]: the low byte of every code unit. *)
Definition latin1 (commands : jsstring) : jsstring :=
  map (fun c => N.modulo c 256) commands.

Definition status200 : jsstring := lit "HTTP/1.1 200 OK" ++ CRLF.
Definition status204 : jsstring := lit "HTTP/1.1 204 No Content" ++ CRLF.
Definition status400 : jsstring := lit "HTTP/1.1 400 Bad Request" ++ CRLF.
Definition status403 : jsstring := lit "HTTP/1.1 403 Forbidden" ++ CRLF.
Definition status500 : jsstring :=
  lit "HTTP/1.1 500 Internal Server Error" ++ CRLF.

(** The status code of a response: the three digits after the protocol
    version. *)
Definition statusOf (response : jsstring) : option Z :=
  if startsWith response (lit "HTTP/1.1 ") then
    match skipn 9 response with
    | a :: b :: c :: _ =>
        Some (100 * (Z.of_N a - 48) + 10 * (Z.of_N b - 48) + (Z.of_N c - 48))
    | _ => None
    end
  else None.

(** The body of a response: what follows the first blank line. *)
Definition bodyOf (response : jsstring) : jsstring :=
  slice response (indexOf response (CRLF ++ CRLF) + 4).

Section Dispatch.
Context {num : Type} `{JSNumber num}.
Variable JSON_parse : jsstring -> outcome (value num).
Variable printer : Printer.

(** [parseInt(printerWidthRef.current, 10) || 48] *)
Definition configuredWidth : Z :=
  match parsedWidth printer with
  | Some w => if w =? 0 then 48 else w
  | None => 48
  end.

(** The body of the [try] block of both [printInvoice] functions, from
    the formatter call on. *)
Definition formatAndWrite (fuel : nat) (invoice : value num) (width : Z)
  : outcome unit :=
  commands <- formatInvoice fuel invoice (Some width) ;;
  let encodedCommands := latin1 commands in
  if writeToDevice printer encodedCommands then Ret tt
  else Throw TransportError.

(** [printInvoice] of the first variant (lines 174-195): failures are
    caught, reported and not rethrown. *)
Definition printInvoice1 (fuel : nat) (invoice : value num) : outcome unit :=
  if negb (connected printer) then Ret tt
  else
    match formatAndWrite fuel invoice configuredWidth with
    | Throw _ => Ret tt
    | r => r
    end.

(** [invoice.printerWidth ?? fallback]: reading a property of [null] or
    [undefined] is a [TypeError]; a primitive has no such property. *)
Definition invoiceWidth (invoice : value num) (fallback : Z) : outcome Z :=
  match invoice with
  | VUndefined | VNull => Throw TypeError
  | VObject o => Ret (orElse (printerWidth o) fallback)
  | _ => Ret fallback
  end.

(** [printInvoice] of the second variant (lines 914-940): failures are
    rethrown after the device was disconnected. *)
Definition printInvoice2 (fuel : nat) (invoice : value num) : outcome unit :=
  if negb (connected printer) then Ret tt
  else
    width <- invoiceWidth invoice configuredWidth ;;
    formatAndWrite fuel invoice width.

Definition delimiter : jsstring := CRLF ++ CRLF.

(** *** First variant (App.tsx, lines 235-282) *)

Definition optionsResponse1 : jsstring :=
  status204
    ++ lit "Access-Control-Allow-Origin: *" ++ CRLF
    ++ lit "Access-Control-Allow-Methods: GET, POST, OPTIONS" ++ CRLF
    ++ lit "Access-Control-Allow-Headers: Content-Type" ++ CRLF
    ++ lit "Content-Length: 0" ++ CRLF ++ CRLF.

Definition postResponse1 : jsstring :=
  status200
    ++ lit "Access-Control-Allow-Origin: *" ++ CRLF
    ++ lit "Access-Control-Allow-Headers: Content-Type" ++ CRLF
    ++ lit "Content-Type: text/plain" ++ CRLF
    ++ lit "Content-Length: 2" ++ CRLF ++ CRLF ++ lit "OK".

Definition defaultResponse1 : jsstring :=
  status200
    ++ lit "Access-Control-Allow-Origin: *" ++ CRLF
    ++ lit "Access-Control-Allow-Headers: Content-Type" ++ CRLF
    ++ lit "Content-Type: text/plain" ++ CRLF
    ++ lit "Content-Length: 19" ++ CRLF ++ CRLF ++ lit "Hello from mobile!".

(** The [data] callback: the string written to the socket. The call of
    [printInvoice] is not awaited, its formatter runs before the write. *)
Definition onData1 (fuel : nat) (data : jsstring) : outcome jsstring :=
  let requestStr := data in
  if startsWith requestStr (lit "OPTIONS") then Ret optionsResponse1
  else if startsWith requestStr (lit "POST /print") then
    let bodyIndex := indexOf requestStr delimiter in
    _ <- (if bodyIndex >=? 0 then
            let body := trim (slice requestStr (bodyIndex + len delimiter)) in
            if negb (eqb body []) then
              match JSON_parse body with
              | Ret invoice => printInvoice1 fuel invoice
              | Throw _ => Ret tt
              | OutOfFuel => OutOfFuel
              end
            else Ret tt
          else Ret tt) ;;
    Ret postResponse1
  else Ret defaultResponse1.

(** *** Second variant (App.tsx, lines 977-1042) *)

Definition optionsResponse2 : jsstring :=
  status204
    ++ lit "Access-Control-Allow-Origin: *" ++ CRLF
    ++ lit "Access-Control-Allow-Methods: GET, POST, OPTIONS" ++ CRLF
    ++ lit "Access-Control-Allow-Headers: Content-Type, authorization" ++ CRLF
    ++ lit "Content-Length: 0" ++ CRLF ++ CRLF.

Definition postResponse2 (statusLine : jsstring) : jsstring :=
  statusLine
    ++ lit "Access-Control-Allow-Origin: *" ++ CRLF
    ++ lit "Access-Control-Allow-Headers: Content-Type" ++ CRLF
    ++ lit "Content-Type: text/plain" ++ CRLF
    ++ lit "Content-Length: 0" ++ CRLF ++ CRLF.

Definition returnResponse2 : jsstring :=
  status200
    ++ lit "Access-Control-Allow-Origin: *" ++ CRLF
    ++ lit "Access-Control-Allow-Headers: Content-Type, authorization" ++ CRLF
    ++ lit "Content-Type: text/plain" ++ CRLF
    ++ lit "Content-Length: 0" ++ CRLF ++ CRLF.

Definition forbiddenResponse2 : jsstring :=
  status403
    ++ lit "Access-Control-Allow-Origin: *" ++ CRLF
    ++ lit "Content-Type: text/plain" ++ CRLF
    ++ lit "Content-Length: 0" ++ CRLF ++ CRLF.

(** The status line chosen for a [POST /print] request. *)
Definition printStatus2 (fuel : nat) (requestStr : jsstring)
  : outcome jsstring :=
  let bodyIndex := indexOf requestStr delimiter in
  if bodyIndex >=? 0 then
    let body := trim (slice requestStr (bodyIndex + len delimiter)) in
    if negb (eqb body []) then
      match (invoice <- JSON_parse body ;; printInvoice2 fuel invoice) with
      | Ret _ => Ret status200
      | Throw _ => Ret status500
      | OutOfFuel => OutOfFuel
      end
    else Ret status400
  else Ret status400.

(** The [data] callback: the string written to the socket. *)
Definition onData2 (fuel : nat) (data : jsstring) : outcome jsstring :=
  let requestStr := trim data in
  if startsWith requestStr (lit "OPTIONS") then Ret optionsResponse2
  else if startsWith requestStr (lit "POST /print") then
    statusLine <- printStatus2 fuel requestStr ;;
    Ret (postResponse2 statusLine)
  else if startsWith requestStr (lit "POST /ReturnToApp") then
    Ret returnResponse2
  else Ret forbiddenResponse2.

End Dispatch.

End Server.

(** ** The earliest handler (unnamed/part_000)

    It knows [POST /print] only, formats with the fixed-width formatter and
    puts a configuration line in front of the commands. Beside the response
    it writes to the socket, the model keeps the bytes it hands to the
    Bluetooth device, when it hands any. *)

Module Server0.

Import InvoiceFormatter.

Section Dispatch.
Context {num : Type} `{JSNumber num}.
Variable JSON_parse : jsstring -> outcome (value num).
Variable connected : bool.               (* [connectedDeviceRef.current] is set *)
Variable ipAddress : option jsstring.    (* the [ipAddress] state, [None] for [null] *)

(** ["Konfiguruesi i printerit : " + (ipAddress || 'Nuk u gjet') + "\n"],
    line 92. *)
Definition printerConfig : jsstring :=
  lit "Konfiguruesi i printerit : "
    ++ (if truthyStr ipAddress then orElse ipAddress [] else lit "Nuk u gjet")
    ++ [LF].

(** [printInvoice], lines 82-107: the bytes passed to [writeToDevice], if
    the call is reached. Whatever the write does is caught and logged. *)
Definition printInvoice (invoice : value num) : option jsstring :=
  if negb connected then None
  else
    match formatInvoice invoice with
    | Ret commands =>
        let fullCommands := printerConfig ++ commands in
        Some (Server.latin1 fullCommands)
    | _ => None
    end.

Definition response (body : jsstring) (length : string) : jsstring :=
  lit "HTTP/1.1 200 OK" ++ CRLF
    ++ lit "Content-Type: text/plain" ++ CRLF
    ++ lit "Content-Length: " ++ lit length ++ CRLF ++ CRLF ++ body.

(** The [data] callback, lines 197-233: the response written to the socket
    and the bytes handed to the device. *)
Definition onData (data : jsstring) : jsstring * option jsstring :=
  let requestStr := data in
  if startsWith requestStr (lit "POST /print") then
    let bodyIndex := indexOf requestStr Server.delimiter in
    let written :=
      if bodyIndex >=? 0 then
        let body := trim (slice requestStr (bodyIndex + len Server.delimiter)) in
        if negb (eqb body []) then
          match JSON_parse body with
          | Ret invoice => printInvoice invoice
          | _ => None
          end
        else None
      else None in
    (response (lit "OK") "2", written)
  else (response (lit "Hello from mobile!") "19", None).

End Dispatch.

End Server0.

(** ** Bluetooth LE characteristics (App.tsx, second variant, lines 657-853)

    [toLowerCase] is a parameter: the functions only compare its result
    with two names. *)

Module Ble.

(** What [char.properties] holds. *)
Inductive Properties : Type :=
| PropsMissing                          (* [undefined] or [null] *)
| PropsObject (keys : list jsstring)    (* a plain object, by its [Object.keys] *)
| PropsArray (items : list jsstring)    (* an array of strings *)
| PropsString (s : jsstring)
| PropsOther (truthy : bool).           (* a number, a boolean *)

Record Characteristic : Type := {
  service : jsstring;
  characteristic : jsstring;
  properties : Properties
}.

Section Writable.
Variable toLowerCase : jsstring -> jsstring.

(** The test of the three [some] callbacks. *)
Definition isWriteName (prop : jsstring) : bool :=
  eqb (toLowerCase prop) (lit "write")
  || eqb (toLowerCase prop) (lit "writewithoutresponse").

(** [!char.properties] *)
Definition propertiesFalsy (p : Properties) : bool :=
  match p with
  | PropsMissing => true
  | PropsString [] => true
  | PropsOther truthy => negb truthy
  | _ => false
  end.

(** [isWritableCharacteristic], lines 657-684. *)
Definition isWritableCharacteristic (char : Characteristic) : bool :=
  if propertiesFalsy (properties char) then false
  else
    match properties char with
    | PropsObject keys => existsb isWriteName keys
    | PropsArray items => existsb isWriteName items
    | PropsString s =>
        let props := map trim (splitOn 44%N s) in
        existsb isWriteName props
    | _ => false
    end.

(** How [connectToDeviceNow] ends once the services are retrieved
    (lines 834-853). *)
Inductive Selection : Type :=
| NoCharacteristics
| NoWritable
| Candidate (service characteristic : jsstring).

Definition selectCandidate (characteristics : option (list Characteristic))
  : Selection :=
  match characteristics with
  | None | Some [] => NoCharacteristics
  | Some chars =>
      match filter isWritableCharacteristic chars with
      | [] => NoWritable
      | first :: _ => Candidate (service first) (characteristic first)
      end
  end.

End Writable.

End Ble.

(** ** Vocabulary of the properties *)

(** A module size clamped into [1, 8], as the specification words it: a
    size below 1 becomes 1, a size above 8 becomes 8, any other size is
    kept. *)
Definition clampedSize (moduleSize : Z) : Z :=
  if moduleSize <? 1 then 1 else if 8 <? moduleSize then 8 else moduleSize.

(** The store-data command with its length prefix spelled out. *)
Definition storeCommandBytes (data : jsstring) : jsstring :=
  [0x1D; 0x28; 0x6B]%N
    ++ [Z.to_N ((len data + 3) mod 256);
        Z.to_N (((len data + 3) / 256) mod 256)]
    ++ [0x31; 0x50; 0x30]%N ++ data.

(** The shape of what [wrapText] returns: the text itself when it fits,
    else its first [width] code units, a line break and the wrapped rest. *)
Inductive Wrapped (width : Z) : jsstring -> jsstring -> Prop :=
| Wrapped_fits text :
    len text <= width -> Wrapped width text text
| Wrapped_break text rest :
    len text > width ->
    Wrapped width (substringFrom text width) rest ->
    Wrapped width text (substring text 0 width ++ [LF] ++ rest).

(** A computation that takes fuel returns [a]: from some amount of fuel
    on, it yields [a]. *)
Definition returns {A} (run : nat -> outcome A) (a : A) : Prop :=
  exists enough, forall fuel, (enough <= fuel)%nat -> run fuel = Ret a.

(** No line break among the code units of a string. *)
Definition singleLine (s : jsstring) : Prop := ~ In LF s.

(** A computation that takes fuel ends with some value. *)
Definition terminates {A} (run : nat -> outcome A) : Prop :=
  exists a, returns run a.

(** The invoice object without any field, [{}]. *)
Definition emptyInvoice {num : Type} : Invoice num := {|
  header := None; invoiceType := None; invNumber := None; tin := None;
  address := None; fiscString := None; opCode := None; buCode := None;
  Date := None; FiscDateRange := None; TaxPointDate := None; lines := None;
  totalPriceNoVat := None; vat := None; totalDiscount := None;
  totalPrice := None; Exrate := None; CustomerName := None;
  CustomerTin := None; CustomerContact := None; CustomerAddress := None;
  qrCode := None; qrSize := None; IIC := None; FIC := None; EIC := None;
  Footer := None; printerWidth := None
|}.

(** A line item with quantity and price present. *)
Definition lineItem {num : Type} (name unit : option jsstring)
  (q p : num) (fp d : option num) : LineItem num := {|
  productName := name; quantity := Some q; price := Some p;
  fullPrice := fp; discountAmount := d; uom := unit
|}.

(** The printer widths on which the width-aware formatter is meant to
    run: absent, zero (replaced by the default) or positive. *)
Definition usableWidth (printerWidth : option Z) : Prop :=
  match printerWidth with
  | Some w => 0 <= w
  | None => True
  end.

(** A value that is not an object: [null], [undefined], or one whose
    [typeof] is not ["object"]. *)
Definition notAnObject {num : Type} (v : value num) : Prop :=
  v = VNull \/ v = VUndefined \/ typeof v <> lit "object".

(** The left text of the first row of a line item. *)
Definition quantityText {num : Type} `{JSNumber num}
  (unit : option jsstring) (q p : num) : jsstring :=
  num_toString q ++ lit "  " ++ orElse unit []
    ++ lit "  x " ++ num_toFixed2 p ++ lit "L".

(** [p] occurs in [s] after [pre]. *)
Definition occursAt (p s pre : jsstring) : Prop :=
  exists post, s = pre ++ p ++ post.

(** Collaborators for concrete runs: a parser that knows the empty object
    only, and a connected printer that accepts every write. *)
Definition parseEmptyObject (body : jsstring) : outcome (value Z) :=
  if eqb body (lit "{}") then Ret (VObject emptyInvoice) else Throw SyntaxError.

Definition readyPrinter : Server.Printer := {|
  Server.connected := true;
  Server.parsedWidth := Some 48;
  Server.writeToDevice := fun _ => true
|}.




(** Requests for concrete runs. *)
Definition requestLine (line : string) : jsstring :=
  lit line ++ CRLF ++ lit "Host: 192.168.1.20:4000" ++ CRLF.

Definition printRequest (body : jsstring) : jsstring :=
  requestLine "POST /print HTTP/1.1" ++ CRLF ++ body.

(** The length a printer reads from the two prefix bytes of a store-data
    command. *)
Definition storedLength (command : jsstring) : Z :=
  Z.of_N (nth 3 command 0%N) + 256 * Z.of_N (nth 4 command 0%N).

(** The value of the leading decimal digits of a string. *)
Fixpoint digitsValue (s : jsstring) (acc : Z) : Z :=
  match s with
  | c :: s' =>
      if (48 <=? Z.of_N c) && (Z.of_N c <=? 57)
      then digitsValue s' (10 * acc + (Z.of_N c - 48))
      else acc
  | [] => acc
  end.

(** The length a response declares in its [Content-Length] header. *)
Definition contentLengthOf (response : jsstring) : option Z :=
  let i := indexOf response (lit "Content-Length: ") in
  if i <? 0 then None else Some (digitsValue (slice response (i + 16)) 0).

(** Lower case of the ASCII letters, for concrete runs. *)
Definition asciiLower (s : jsstring) : jsstring :=
  map (fun c => if (65 <=? c)%N && (c <=? 90)%N then (c + 32)%N else c) s.

(** The number of line breaks in a string. *)
Definition lineBreaks (s : jsstring) : Z :=
  len (filter (fun c => N.eqb c LF) s).

(** The line [centerWrap] makes of a wrapped line. *)
Definition centered (width : Z) (line : jsstring) : jsstring :=
  copies [SP] (Z.to_nat (floorHalf (width - len line))) ++ line.

(** * Properties *)

(** ** Strings *)

Section StringFacts.

Lemma len_app (s t : jsstring) : len (s ++ t) = len s + len t.
Proof. unfold len. rewrite length_app. lia. Qed.

Lemma len_nonneg (s : jsstring) : 0 <= len s.
Proof. unfold len. lia. Qed.

Lemma len_nil : len [] = 0.
Proof. reflexivity. Qed.

Lemma len_cons (c : char) (s : jsstring) : len (c :: s) = 1 + len s.
Proof. unfold len. simpl List.length. lia. Qed.

Lemma copies_char_length (c : char) (n : nat) :
  List.length (copies [c] n) = n.
Proof.
  unfold copies. induction n as [|n IH]; simpl; [reflexivity|].
  now rewrite IH.
Qed.

Lemma len_copies_char (c : char) (n : nat) : len (copies [c] n) = Z.of_nat n.
Proof. unfold len. now rewrite copies_char_length. Qed.

Lemma copies_char_In (c d : char) (n : nat) : In d (copies [c] n) -> d = c.
Proof.
  unfold copies. induction n as [|n IH]; simpl; [tauto|].
  intros [E | Hin]; [now symmetry | now apply IH].
Qed.

Lemma startsWith_app (s t : jsstring) : startsWith (s ++ t) s = true.
Proof.
  induction s as [|c s IH]; simpl; [reflexivity|].
  now rewrite N.eqb_refl, IH.
Qed.

Lemma startsWith_prefix (s p : jsstring) :
  startsWith s p = true -> exists t, s = p ++ t.
Proof.
  revert s. induction p as [|c p IH]; intros s Hs.
  - now exists s.
  - destruct s as [|d s]; simpl in Hs; [discriminate|].
    apply andb_true_iff in Hs. destruct Hs as [Hc Hp].
    apply N.eqb_eq in Hc. subst d.
    destruct (IH _ Hp) as [t ->]. now exists t.
Qed.

Lemma endsWith_app (s t : jsstring) : endsWith (s ++ t) t = true.
Proof. unfold endsWith. rewrite rev_app_distr. apply startsWith_app. Qed.

Lemma splitOn_not_nil (sep : char) (s : jsstring) : splitOn sep s <> [].
Proof.
  destruct s as [|c s]; simpl; [discriminate|].
  destruct (N.eqb c sep); [discriminate|].
  destruct (splitOn sep s); discriminate.
Qed.

(** A string without the separator is its own single line. *)
Lemma splitOn_no_sep (sep : char) (s : jsstring) :
  ~ In sep s -> splitOn sep s = [s].
Proof.
  induction s as [|c s IH]; intros Hn; [reflexivity|].
  simpl. destruct (N.eqb_spec c sep) as [E | _].
  - exfalso. apply Hn. now left.
  - rewrite IH; [reflexivity|]. intros Hin. apply Hn. now right.
Qed.

(** Splitting distributes over a separator that sits between two parts. *)
Lemma splitOn_app_sep (sep : char) (s t : jsstring) :
  splitOn sep (s ++ sep :: t) = splitOn sep s ++ splitOn sep t.
Proof.
  induction s as [|c s IH]; simpl.
  - now rewrite N.eqb_refl.
  - destruct (N.eqb c sep); [now rewrite IH|].
    rewrite IH.
    destruct (splitOn sep s) as [|l ls] eqn:E; [|reflexivity].
    now apply splitOn_not_nil in E.
Qed.

(** No line is longer than the string it was cut from. *)
Lemma splitOn_length_le (sep : char) (s : jsstring) :
  Forall (fun line => (List.length line <= List.length s)%nat) (splitOn sep s).
Proof.
  induction s as [|c s IH]; simpl.
  - constructor; [simpl; lia | constructor].
  - destruct (N.eqb c sep).
    + constructor; [simpl; lia|].
      eapply Forall_impl; [|exact IH]. simpl. intros; lia.
    + destruct (splitOn sep s) as [|l ls].
      * constructor; [simpl; lia | constructor].
      * inversion IH; subst. constructor; [simpl; lia|].
        eapply Forall_impl; [|eassumption]. simpl. intros; lia.
Qed.

(** The lines, put back together without separators, are the string
    without its separators. *)
Lemma concat_splitOn (sep : char) (s : jsstring) :
  concat (splitOn sep s) = filter (fun c => negb (N.eqb c sep)) s.
Proof.
  induction s as [|c s IH]; [reflexivity|].
  simpl. destruct (N.eqb c sep); simpl; [exact IH|].
  rewrite <- IH.
  destruct (splitOn sep s) as [|l ls]; reflexivity.
Qed.

Lemma filter_no_sep (sep : char) (s : jsstring) :
  ~ In sep s -> filter (fun c => negb (N.eqb c sep)) s = s.
Proof.
  induction s as [|c s IH]; intros Hn; [reflexivity|].
  simpl. destruct (N.eqb_spec c sep) as [E | _].
  - exfalso. apply Hn. now left.
  - simpl. rewrite IH; [reflexivity|]. intros Hin. apply Hn. now right.
Qed.

(** [ToInt32] leaves the two low bytes of a number alone. *)
Lemma toInt32_congruent (n : Z) : exists k, toInt32 n = n + 4294967296 * k.
Proof.
  unfold toInt32.
  exists (- ((n + 2147483648) / 4294967296)).
  pose proof (Z.div_mod (n + 2147483648) 4294967296 ltac:(lia)). lia.
Qed.

Lemma bitand_low_byte (n : Z) : bitand n 0xff = n mod 256.
Proof.
  unfold bitand.
  change (toInt32 0xff) with (Z.ones 8).
  rewrite Z.land_ones by lia. change (2 ^ 8) with 256.
  destruct (toInt32_congruent n) as [k ->].
  replace (n + 4294967296 * k) with (n + (16777216 * k) * 256) by lia.
  now rewrite Z.mod_add by lia.
Qed.

Lemma bitand_second_byte (n : Z) : bitand (sar n 8) 0xff = (n / 256) mod 256.
Proof.
  rewrite bitand_low_byte. unfold sar.
  rewrite Z.shiftr_div_pow2 by lia. change (2 ^ 8) with 256.
  destruct (toInt32_congruent n) as [k ->].
  replace (n + 4294967296 * k) with (n + (16777216 * k) * 256) by lia.
  rewrite Z.div_add by lia.
  replace (n / 256 + 16777216 * k) with (n / 256 + (65536 * k) * 256) by lia.
  now rewrite Z.mod_add by lia.
Qed.

Lemma fromCharCode_byte (n : Z) :
  fromCharCode (n mod 256) = [Z.to_N (n mod 256)].
Proof.
  unfold fromCharCode, toUint16.
  pose proof (Z.mod_pos_bound n 256 ltac:(lia)).
  now rewrite Z.mod_small by lia.
Qed.

End StringFacts.

(** ** The command codec *)

(** The module size is clamped into [1, 8] before it is encoded. *)
Lemma printQRCode_clamped (data : jsstring) (moduleSize : Z) :
  EscposCommands.printQRCode data moduleSize
  = EscposCommands.printQRCode data (Z.max 1 (Z.min moduleSize 8))
  /\ EscposCommands2.printQRCode data moduleSize
     = EscposCommands2.printQRCode data (Z.max 1 (Z.min moduleSize 8)).
Proof.
  unfold EscposCommands.printQRCode, EscposCommands2.printQRCode.
  replace (Z.max 1 (Z.min (Z.max 1 (Z.min moduleSize 8)) 8))
    with (Z.max 1 (Z.min moduleSize 8)) by lia.
  split; reflexivity.
Qed.

Lemma clamp_range (m : Z) : 1 <= Z.max 1 (Z.min m 8) <= 8.
Proof. lia. Qed.

Lemma fromCharCode_small (n : Z) :
  0 <= n < 65536 -> fromCharCode n = [Z.to_N n].
Proof. intros Hn. unfold fromCharCode, toUint16. now rewrite Z.mod_small. Qed.

(** [Math.max(1, Math.min(moduleSize, 8))] is the clamp into [1, 8]. *)
Lemma clampedSize_max_min (moduleSize : Z) :
  Z.max 1 (Z.min moduleSize 8) = clampedSize moduleSize.
Proof.
  unfold clampedSize.
  destruct (Z.ltb_spec moduleSize 1); [lia|].
  destruct (Z.ltb_spec 8 moduleSize); lia.
Qed.

Lemma clampedSize_range (moduleSize : Z) : 1 <= clampedSize moduleSize <= 8.
Proof. rewrite <- clampedSize_max_min. apply clamp_range. Qed.

(** The module-size command of [printQRCode], with its last byte spelled
    out. *)
Lemma sizeCommand_byte (moduleSize : Z) :
  EscposCommands.sizeCommand (Z.max 1 (Z.min moduleSize 8))
  = [0x1D; 0x28; 0x6B; 0x03; 0x00; 0x31; 0x43]%N
      ++ [Z.to_N (clampedSize moduleSize)]
  /\ EscposCommands2.sizeCommand (Z.max 1 (Z.min moduleSize 8))
     = [0x1D; 0x28; 0x6B; 0x03; 0x00; 0x31; 0x43]%N
         ++ [Z.to_N (clampedSize moduleSize)].
Proof.
  unfold EscposCommands.sizeCommand, EscposCommands2.sizeCommand.
  rewrite clampedSize_max_min.
  pose proof (clampedSize_range moduleSize).
  rewrite fromCharCode_small by lia. split; reflexivity.
Qed.

(** Two QR commands for the same payload are equal exactly when their
    module-size bytes are. *)
Lemma size_byte_decides (before after : jsstring) (size size' : Z) :
  1 <= size <= 8 -> 1 <= size' <= 8 ->
  before ++ ([0x1D; 0x28; 0x6B; 0x03; 0x00; 0x31; 0x43]%N ++ [Z.to_N size])
    ++ after
  = before ++ ([0x1D; 0x28; 0x6B; 0x03; 0x00; 0x31; 0x43]%N ++ [Z.to_N size'])
      ++ after
  <-> size = size'.
Proof.
  intros Hs Hs'. split; [|now intros ->].
  intros Heq. apply app_inv_head in Heq. apply app_inv_tail in Heq.
  apply app_inv_head in Heq. injection Heq as Heq. lia.
Qed.

(** C4. QR clamping: for every payload, module size 20 yields the very bytes
    of module size 8, and module size 0 those of module size 1. For every
    requested module size, the byte that ends the module-size command
    [1D 28 6B 03 00 31 43] is the size clamped into [1, 8] (a size below 1
    becomes 1, a size above 8 becomes 8, any other is kept), the rest of the
    command does not depend on the requested size, and two requested sizes
    give the same bytes exactly when their clamped sizes are equal. This
    holds for [printQRCode] of both copies of the codec. *)
Theorem printQRCode_clamping (data : jsstring) :
  (EscposCommands.printQRCode data 20 = EscposCommands.printQRCode data 8
   /\ EscposCommands.printQRCode data 0 = EscposCommands.printQRCode data 1
   /\ EscposCommands2.printQRCode data 20 = EscposCommands2.printQRCode data 8
   /\ EscposCommands2.printQRCode data 0 = EscposCommands2.printQRCode data 1)
  /\ (forall moduleSize : Z,
        let size := clampedSize moduleSize in
        1 <= size <= 8
        /\ EscposCommands.printQRCode data moduleSize
           = EscposCommands.centerOn ++ EscposCommands.modelCommand
               ++ ([0x1D; 0x28; 0x6B; 0x03; 0x00; 0x31; 0x43]%N
                     ++ [Z.to_N size])
               ++ EscposCommands.errorCommand
               ++ EscposCommands.storeCommand data
               ++ EscposCommands.printCommand ++ EscposCommands.centerOff
        /\ EscposCommands2.printQRCode data moduleSize
           = EscposCommands2.centerOn ++ EscposCommands2.modelCommand
               ++ ([0x1D; 0x28; 0x6B; 0x03; 0x00; 0x31; 0x43]%N
                     ++ [Z.to_N size])
               ++ EscposCommands2.errorCommand
               ++ EscposCommands2.storeCommand data
               ++ EscposCommands2.printCommand ++ EscposCommands2.centerOff)
  /\ (forall m m' : Z,
        (EscposCommands.printQRCode data m = EscposCommands.printQRCode data m'
         <-> clampedSize m = clampedSize m')
        /\ (EscposCommands2.printQRCode data m
            = EscposCommands2.printQRCode data m'
            <-> clampedSize m = clampedSize m')).
Proof.
  assert (Hbytes : forall moduleSize : Z,
    EscposCommands.printQRCode data moduleSize
    = (EscposCommands.centerOn ++ EscposCommands.modelCommand)
        ++ ([0x1D; 0x28; 0x6B; 0x03; 0x00; 0x31; 0x43]%N
              ++ [Z.to_N (clampedSize moduleSize)])
        ++ EscposCommands.errorCommand ++ EscposCommands.storeCommand data
        ++ EscposCommands.printCommand ++ EscposCommands.centerOff
    /\ EscposCommands2.printQRCode data moduleSize
       = (EscposCommands2.centerOn ++ EscposCommands2.modelCommand)
           ++ ([0x1D; 0x28; 0x6B; 0x03; 0x00; 0x31; 0x43]%N
                 ++ [Z.to_N (clampedSize moduleSize)])
           ++ EscposCommands2.errorCommand ++ EscposCommands2.storeCommand data
           ++ EscposCommands2.printCommand ++ EscposCommands2.centerOff).
  { intros moduleSize.
    unfold EscposCommands.printQRCode, EscposCommands2.printQRCode.
    cbv zeta.
    rewrite (proj1 (sizeCommand_byte moduleSize)),
      (proj2 (sizeCommand_byte moduleSize)).
    split; apply app_assoc. }
  split; [|split].
  - pose proof (printQRCode_clamped data 20) as [H20 H20'].
    pose proof (printQRCode_clamped data 0) as [H0 H0'].
    change (Z.max 1 (Z.min 20 8)) with 8 in H20, H20'.
    change (Z.max 1 (Z.min 0 8)) with 1 in H0, H0'.
    auto.
  - intros moduleSize size. subst size.
    split; [apply clampedSize_range|].
    destruct (Hbytes moduleSize) as [-> ->].
    split; symmetry; apply app_assoc.
  - intros m m'.
    destruct (Hbytes m) as [-> ->]. destruct (Hbytes m') as [-> ->].
    split; apply size_byte_decides; apply clampedSize_range.
Qed.

Lemma storeCommand_bytes (data : jsstring) :
  EscposCommands.storeCommand data = storeCommandBytes data
  /\ EscposCommands2.storeCommand data = storeCommandBytes data.
Proof.
  unfold EscposCommands.storeCommand, EscposCommands2.storeCommand,
    storeCommandBytes.
  rewrite bitand_low_byte, bitand_second_byte, !fromCharCode_byte.
  split; reflexivity.
Qed.


(** ** Wrapping *)

Section Wrapping.

Import InvoiceFormatterW.

Lemma substring_prefix (text : jsstring) (width : Z) :
  0 <= width <= len text ->
  substring text 0 width = firstn (Z.to_nat width) text.
Proof.
  intros Hw. unfold substring, clampIndex.
  rewrite (Z.max_l 0 0), (Z.min_l 0) by (pose proof (len_nonneg text); lia).
  rewrite Z.max_l, Z.min_l by lia.
  change (Z.to_nat 0) with 0%nat. simpl Nat.min. rewrite Nat.max_0_l, Nat.sub_0_r.
  reflexivity.
Qed.

Lemma substringFrom_suffix (text : jsstring) (width : Z) :
  0 <= width <= len text ->
  substringFrom text width = skipn (Z.to_nat width) text.
Proof.
  intros Hw. unfold substringFrom, clampIndex.
  now rewrite Z.max_l, Z.min_l by lia.
Qed.

(** One turn of the loop cuts the text in two. *)
Lemma wrap_cut (text : jsstring) (width : Z) :
  0 <= width -> len text > width ->
  substring text 0 width ++ substringFrom text width = text
  /\ len (substring text 0 width) = width.
Proof.
  intros H0 Hlen.
  rewrite substring_prefix, substringFrom_suffix by lia.
  split; [apply firstn_skipn|].
  unfold len in *. rewrite length_firstn. lia.
Qed.

(** Partial correctness of the loop, at any width. *)
Lemma wrapText_loop_Wrapped (width : Z) (fuel : nat) :
  forall result text r,
    wrapText_loop fuel result text width = Ret r ->
    exists w, Wrapped width text w /\ r = result ++ w.
Proof.
  induction fuel as [|fuel IH]; intros result text r Hrun; simpl in Hrun.
  - discriminate.
  - destruct (len text >? width) eqn:Hcmp.
    + apply IH in Hrun. destruct Hrun as (w & Hw & ->).
      exists (substring text 0 width ++ [LF] ++ w). split.
      * apply Wrapped_break; [lia | exact Hw].
      * now rewrite <- !app_assoc.
    + injection Hrun as <-. exists text. split; [|reflexivity].
      apply Wrapped_fits. lia.
Qed.

(** With a width of at least one, the loop ends within [length text]
    turns, whatever it has accumulated. *)
Lemma Wrapped_run (width : Z) (text w : jsstring) :
  1 <= width -> Wrapped width text w ->
  forall fuel result,
    (List.length text < fuel)%nat ->
    wrapText_loop fuel result text width = Ret (result ++ w).
Proof.
  intros Hw HW. induction HW as [text Hfit | text rest Hlong HW IH];
    intros fuel result Hfuel.
  - destruct fuel as [|fuel]; [lia|]. simpl.
    replace (len text >? width) with false by lia. reflexivity.
  - destruct fuel as [|fuel]; [lia|]. simpl.
    replace (len text >? width) with true by lia.
    rewrite IH.
    + now rewrite <- !app_assoc.
    + rewrite substringFrom_suffix by lia.
      rewrite length_skipn. unfold len in Hlong. lia.
Qed.

Lemma Wrapped_total (width : Z) :
  1 <= width -> forall text, exists w, Wrapped width text w.
Proof.
  intros Hw text.
  remember (List.length text) as n eqn:Hn.
  revert text Hn. induction n as [n IH] using lt_wf_ind. intros text Hn.
  destruct (Z_le_gt_dec (len text) width) as [Hfit | Hlong].
  - exists text. now apply Wrapped_fits.
  - destruct (IH (List.length (substringFrom text width))) with
      (text := substringFrom text width) as [w Hw']; [|reflexivity|].
    + rewrite substringFrom_suffix by lia.
      rewrite length_skipn. unfold len in Hlong. lia.
    + eexists. apply Wrapped_break; eassumption.
Qed.

Lemma Wrapped_functional (width : Z) (text w1 w2 : jsstring) :
  Wrapped width text w1 -> Wrapped width text w2 -> w1 = w2.
Proof.
  intros H1. revert w2.
  induction H1 as [text Hfit | text rest Hlong H1 IH]; intros w2 H2;
    inversion H2; subst; try lia; [reflexivity|].
  f_equal. f_equal. now apply IH.
Qed.

(** Every physical line of a wrapped text fits the width. *)
Lemma Wrapped_lines (width : Z) (text w : jsstring) :
  0 <= width -> Wrapped width text w ->
  Forall (fun line => len line <= width) (splitOn LF w).
Proof.
  intros Hw HW. induction HW as [text Hfit | text rest Hlong HW IH].
  - eapply Forall_impl; [|apply splitOn_length_le].
    unfold len in *. simpl. intros; lia.
  - simpl app. rewrite splitOn_app_sep. apply Forall_app. split; [|exact IH].
    eapply Forall_impl; [|apply splitOn_length_le].
    destruct (wrap_cut text width Hw Hlong) as [_ Hcut].
    unfold len in *. simpl. intros; lia.
Qed.

(** Wrapping only inserts line breaks. *)
Lemma Wrapped_filter (width : Z) (text w : jsstring) :
  0 <= width -> Wrapped width text w ->
  filter (fun c => negb (N.eqb c LF)) w = filter (fun c => negb (N.eqb c LF)) text.
Proof.
  intros Hw HW. induction HW as [text Hfit | text rest Hlong HW IH].
  - reflexivity.
  - destruct (wrap_cut text width Hw Hlong) as [Hcut _].
    transitivity (filter (fun c => negb (N.eqb c LF))
                    (substring text 0 width ++ substringFrom text width)).
    + rewrite filter_app. cbn [app filter]. rewrite N.eqb_refl. cbn [negb].
      rewrite filter_app. f_equal. exact IH.
    + now rewrite Hcut.
Qed.

(** A text that fits is returned as it is. *)
Lemma Wrapped_fits_inv (width : Z) (text w : jsstring) :
  len text <= width -> Wrapped width text w -> w = text.
Proof.
  intros Hfit HW. eapply Wrapped_functional; [exact HW|].
  now apply Wrapped_fits.
Qed.

(** [wrapText] returns, and what it returns has the wrapped shape. *)
Lemma wrapText_returns (text : jsstring) (width : Z) :
  1 <= width ->
  exists w, Wrapped width text w
            /\ forall fuel, (List.length text < fuel)%nat ->
                            wrapText fuel text width = Ret w.
Proof.
  intros Hw. destruct (Wrapped_total width Hw text) as [w HW].
  exists w. split; [exact HW|]. intros fuel Hfuel.
  unfold wrapText. now rewrite (Wrapped_run width text w Hw HW).
Qed.

(** With a negative width the loop never ends. *)
Lemma wrapText_loop_negative (width : Z) (fuel : nat) :
  width < 0 -> forall result text,
    wrapText_loop fuel result text width = OutOfFuel.
Proof.
  intros Hw. induction fuel as [|fuel IH]; intros result text; simpl.
  - reflexivity.
  - pose proof (len_nonneg text).
    replace (len text >? width) with true by lia. apply IH.
Qed.

End Wrapping.

(** C1. Width respect: for a width between 8 and 80 and a text longer than
    the width, [wrapText] returns, and no physical line of its result
    (the result split at the line breaks) is longer than the width. *)
Theorem wrapText_width_respect (text : jsstring) (width : Z) :
  8 <= width <= 80 ->
  len text > width ->
  exists wrapped,
    (forall fuel, (List.length text < fuel)%nat ->
                  InvoiceFormatterW.wrapText fuel text width = Ret wrapped)
    /\ Forall (fun line => len line <= width) (splitOn LF wrapped).
Proof.
  intros Hw _.
  destruct (wrapText_returns text width) as (w & HW & Hrun); [lia|].
  exists w. split; [exact Hrun|].
  apply (Wrapped_lines width text); [lia | exact HW].
Qed.

Lemma wrapText_width_respect_witness :
  exists wrapped,
    (forall fuel, (List.length (lit "0123456789abcdefghij") < fuel)%nat ->
                  InvoiceFormatterW.wrapText fuel (lit "0123456789abcdefghij") 8
                  = Ret wrapped)
    /\ Forall (fun line => len line <= 8) (splitOn LF wrapped).
Proof.
  apply (wrapText_width_respect (lit "0123456789abcdefghij") 8).
  - lia.
  - vm_compute. reflexivity.
Defined.

(** C10. Wrapping keeps the text: for a text without line break and a
    width of at least one, [wrapText] returns, and the physical lines of
    its result, concatenated in order, are the text. *)
Theorem wrapText_preserves_text (text : jsstring) (width : Z) :
  singleLine text ->
  1 <= width ->
  exists wrapped,
    (forall fuel, (List.length text < fuel)%nat ->
                  InvoiceFormatterW.wrapText fuel text width = Ret wrapped)
    /\ concat (splitOn LF wrapped) = text.
Proof.
  intros Hline Hw.
  destruct (wrapText_returns text width Hw) as (w & HW & Hrun).
  exists w. split; [exact Hrun|].
  rewrite concat_splitOn, (Wrapped_filter width text) by (lia || assumption).
  now apply filter_no_sep.
Qed.

Lemma wrapText_preserves_text_witness :
  exists wrapped,
    (forall fuel, (List.length (lit "0123456789abcdefghij") < fuel)%nat ->
                  InvoiceFormatterW.wrapText fuel (lit "0123456789abcdefghij") 3
                  = Ret wrapped)
    /\ concat (splitOn LF wrapped) = lit "0123456789abcdefghij".
Proof.
  apply (wrapText_preserves_text (lit "0123456789abcdefghij") 3).
  - unfold singleLine. vm_compute. intuition discriminate.
  - lia.
Defined.

(** ** Left/right justification *)

Section Justification.

Import InvoiceFormatterW.

(** Both copies of the codec have the same [leftRightText]. *)
Lemma leftRightText_same (left right : jsstring) (width : Z) :
  EscposCommands2.leftRightText left right width
  = EscposCommands.leftRightText left right width.
Proof. reflexivity. Qed.

(** When both texts fit, the gap is filled with spaces. *)
Lemma leftRightText_fits (left right : jsstring) (width : Z) :
  len left + len right <= width ->
  EscposCommands.leftRightText left right width
  = left ++ copies [SP] (Z.to_nat (width - len left - len right)) ++ right.
Proof.
  intros Hfit. unfold EscposCommands.leftRightText.
  destruct (width - len left - len right >? 0) eqn:Hgap; [reflexivity|].
  replace (width - len left - len right) with 0 by lia. reflexivity.
Qed.

(** [leftRightText] spelled out: the left text, the spaces of the gap
    (none when the texts fill the width or more) and the right text. *)
Lemma leftRightText_spaces (left right : jsstring) (width : Z) :
  EscposCommands.leftRightText left right width
  = left ++ copies [SP] (Z.to_nat (width - len left - len right)) ++ right.
Proof.
  unfold EscposCommands.leftRightText.
  destruct (Z.gtb_spec (width - len left - len right) 0) as [Hgap|Hgap];
    [reflexivity|].
  replace (Z.to_nat (width - len left - len right)) with 0%nat by lia.
  reflexivity.
Qed.

Lemma leftRightText_line (left right : jsstring) (width : Z) :
  len left + len right <= width ->
  let line := EscposCommands.leftRightText left right width in
  len line = width /\ startsWith line left = true /\ endsWith line right = true.
Proof.
  intros Hfit line. subst line. rewrite leftRightText_fits by exact Hfit.
  repeat split.
  - rewrite !len_app, len_copies_char.
    pose proof (len_nonneg left). pose proof (len_nonneg right). lia.
  - apply startsWith_app.
  - rewrite app_assoc. apply endsWith_app.
Qed.

(** The [forEach] of [leftRightTextWrapped] in closed form. *)
Lemma leftLines_forEach_rest (right : jsstring) (leftWidth : Z) :
  forall leftLines index result,
    leftLines_forEach right leftWidth (S index) leftLines result
    = result ++ concat (map (fun line => LF :: line) leftLines).
Proof.
  induction leftLines as [|line rest IH]; intros index result; simpl.
  - now rewrite app_nil_r.
  - rewrite IH. now rewrite <- app_assoc.
Qed.

Lemma leftLines_forEach_first (right : jsstring) (leftWidth : Z)
  (line : jsstring) (rest : list jsstring) :
  leftLines_forEach right leftWidth 0 (line :: rest) []
  = padEnd line leftWidth ++ right
      ++ concat (map (fun line => LF :: line) rest).
Proof.
  simpl. rewrite leftLines_forEach_rest. now rewrite <- app_assoc.
Qed.

(** A left text without line break that fits beside the right text: the
    wrapped variant produces the line of [leftRightText]. *)
Lemma leftRightTextWrapped_fits (left right : jsstring) (width : Z) (fuel : nat) :
  len left + len right <= width ->
  singleLine left ->
  (0 < fuel)%nat ->
  leftRightTextWrapped fuel left right width
  = Ret (EscposCommands.leftRightText left right width).
Proof.
  intros Hfit Hline Hfuel. rewrite leftRightText_fits by exact Hfit.
  unfold leftRightTextWrapped.
  pose proof (len_nonneg left) as Hl.
  destruct (width - len right <=? 0) eqn:Hw.
  - assert (Hnil : left = []).
    { destruct left; [reflexivity|]. rewrite len_cons in *.
      pose proof (len_nonneg left). lia. }
    subst left. rewrite len_nil.
    replace (width - 0 - len right) with 0 by lia. reflexivity.
  - destruct fuel as [|fuel]; [lia|].
    unfold wrapText. simpl wrapText_loop.
    replace (len left >? width - len right) with false by lia.
    simpl bind. rewrite splitOn_no_sep by exact Hline.
    rewrite leftLines_forEach_first. simpl. rewrite app_nil_r.
    unfold padEnd. rewrite <- app_assoc.
    now replace (width - len right - len left)
      with (width - len left - len right) by lia.
Qed.

Lemma copies_space_singleLine (n : nat) : singleLine (copies [SP] n).
Proof. intros Hin. apply copies_char_In in Hin. discriminate. Qed.

Lemma singleLine_app (s t : jsstring) :
  singleLine s -> singleLine t -> singleLine (s ++ t).
Proof.
  unfold singleLine. intros Hs Ht Hin.
  apply in_app_or in Hin. tauto.
Qed.

End Justification.

(** C2 (as amended). leftRight invariant: when [len left + len right <= width],
    the line of [leftRightText] (both copies of the codec) is exactly
    [width] long, starts with [left] and ends with [right]; when moreover
    [left] contains no line break, [leftRightTextWrapped] returns that same
    line, and it is one physical line when [right] contains no line break
    either. *)
Theorem leftRight_invariant (left right : jsstring) (width : Z) :
  len left + len right <= width ->
  (let line := EscposCommands.leftRightText left right width in
   len line = width /\ startsWith line left = true /\ endsWith line right = true)
  /\ (let line := EscposCommands2.leftRightText left right width in
      len line = width /\ startsWith line left = true
      /\ endsWith line right = true)
  /\ (singleLine left ->
      forall fuel, (0 < fuel)%nat ->
      exists line,
        InvoiceFormatterW.leftRightTextWrapped fuel left right width = Ret line
        /\ len line = width /\ startsWith line left = true
        /\ endsWith line right = true
        /\ (singleLine right -> splitOn LF line = [line])).
Proof.
  intros Hfit. split; [|split].
  - now apply leftRightText_line.
  - rewrite leftRightText_same. now apply leftRightText_line.
  - intros Hl fuel Hfuel.
    exists (EscposCommands.leftRightText left right width).
    split; [now apply leftRightTextWrapped_fits|].
    destruct (leftRightText_line left right width Hfit) as (Hlen & Hs & He).
    repeat split; try assumption.
    intros Hr. apply splitOn_no_sep. rewrite leftRightText_fits by exact Hfit.
    apply singleLine_app; [exact Hl|].
    apply singleLine_app; [apply copies_space_singleLine | exact Hr].
Qed.

Lemma leftRight_invariant_witness :
  (let line := EscposCommands.leftRightText (lit "milk") (lit "2.50L") 16 in
   len line = 16 /\ startsWith line (lit "milk") = true
   /\ endsWith line (lit "2.50L") = true)
  /\ exists line,
      InvoiceFormatterW.leftRightTextWrapped 1 (lit "milk") (lit "2.50L") 16
      = Ret line
      /\ len line = 16 /\ startsWith line (lit "milk") = true
      /\ endsWith line (lit "2.50L") = true
      /\ (singleLine (lit "2.50L") -> splitOn LF line = [line]).
Proof.
  destruct (leftRight_invariant (lit "milk") (lit "2.50L") 16) as (H1 & _ & H3).
  - vm_compute. discriminate.
  - split; [exact H1|]. apply H3.
    + unfold singleLine. vm_compute. intuition discriminate.
    + lia.
Defined.

(** C2 as stated fails for [leftRightTextWrapped] on a left text with a
    line break: the texts fit, yet the first line of the result is cut at
    the break of [left] and does not start with [left]. *)
Lemma leftRight_invariant_counterexample :
  let left := lit "a" ++ [LF] ++ lit "b" in
  let right := lit "c" in
  let width := 10 in
  len left + len right <= width
  /\ (forall fuel, (0 < fuel)%nat ->
        InvoiceFormatterW.leftRightTextWrapped fuel left right width
        = Ret (lit "a        c" ++ [LF] ++ lit "b"))
  /\ hd [] (splitOn LF (lit "a        c" ++ [LF] ++ lit "b")) = lit "a        c"
  /\ startsWith (lit "a        c") left = false.
Proof.
  cbv zeta. split; [vm_compute; discriminate|]. split; [|split; reflexivity].
  intros [|fuel] Hfuel; [lia|]. reflexivity.
Qed.

(** The same happens on the right: a line break in [right] ends the first
    line before the width is reached. *)
Lemma leftRightTextWrapped_right_break :
  InvoiceFormatterW.leftRightTextWrapped 1 (lit "a") (lit "b" ++ [LF] ++ lit "c") 10
  = Ret (lit "a      b" ++ [LF] ++ lit "c").
Proof. reflexivity. Qed.

(** C3 (as amended). When the right text leaves no room ([width <= len right]),
    [leftRightTextWrapped] returns [left] directly followed by [right],
    unwrapped and unpadded. When it leaves room, [left] is hard-wrapped to
    [width - len right]; the first wrapped line, padded to that width,
    carries [right], and every further wrapped line follows on a line of its
    own without it. *)
Theorem leftRightTextWrapped_layout (left right : jsstring) (width : Z) :
  (width <= len right ->
   forall fuel,
     InvoiceFormatterW.leftRightTextWrapped fuel left right width
     = Ret (left ++ right))
  /\ (len right < width ->
      exists wrapped,
        Wrapped (width - len right) left wrapped
        /\ forall fuel, (List.length left < fuel)%nat ->
             InvoiceFormatterW.wrapText fuel left (width - len right) = Ret wrapped
             /\ InvoiceFormatterW.leftRightTextWrapped fuel left right width
                = Ret (padEnd (hd [] (splitOn LF wrapped)) (width - len right)
                         ++ right
                         ++ concat (map (fun line => LF :: line)
                                      (tl (splitOn LF wrapped))))).
Proof.
  split.
  - intros Hw fuel. unfold InvoiceFormatterW.leftRightTextWrapped.
    now replace (width - len right <=? 0) with true by lia.
  - intros Hw.
    destruct (wrapText_returns left (width - len right)) as (w & HW & Hrun);
      [lia|].
    exists w. split; [exact HW|]. intros fuel Hfuel.
    split; [now apply Hrun|].
    unfold InvoiceFormatterW.leftRightTextWrapped.
    replace (width - len right <=? 0) with false by lia.
    rewrite Hrun by exact Hfuel. simpl bind.
    destruct (splitOn LF w) as [|line rest] eqn:E.
    + now apply splitOn_not_nil in E.
    + now rewrite leftLines_forEach_first.
Qed.

Lemma leftRightTextWrapped_layout_witness :
  InvoiceFormatterW.leftRightTextWrapped 0 (lit "abcdef") (lit "123456789") 8
  = Ret (lit "abcdef" ++ lit "123456789")
  /\ exists wrapped,
      Wrapped (8 - len (lit "12345")) (lit "abcdef") wrapped
      /\ forall fuel, (List.length (lit "abcdef") < fuel)%nat ->
           InvoiceFormatterW.wrapText fuel (lit "abcdef") (8 - len (lit "12345"))
           = Ret wrapped
           /\ InvoiceFormatterW.leftRightTextWrapped fuel (lit "abcdef")
                (lit "12345") 8
              = Ret (padEnd (hd [] (splitOn LF wrapped)) (8 - len (lit "12345"))
                       ++ lit "12345"
                       ++ concat (map (fun line => LF :: line)
                                    (tl (splitOn LF wrapped)))).
Proof.
  split.
  - apply (proj1 (leftRightTextWrapped_layout (lit "abcdef") (lit "123456789") 8)).
    vm_compute. discriminate.
  - apply (proj2 (leftRightTextWrapped_layout (lit "abcdef") (lit "12345") 8)).
    vm_compute. reflexivity.
Defined.

(** C3 as stated fails: with a right text wider than the line, nothing is
    wrapped. The result is [left] and [right] on one physical line, and
    wrapping [left] to the negative remaining width would not even end. *)
Lemma leftRightTextWrapped_layout_counterexample :
  let left := lit "abcdef" in
  let right := lit "123456789" in
  let width := 8 in
  len right > width
  /\ (forall fuel,
        InvoiceFormatterW.leftRightTextWrapped fuel left right width
        = Ret (lit "abcdef123456789"))
  /\ splitOn LF (lit "abcdef123456789") = [lit "abcdef123456789"]
  /\ (forall fuel,
        InvoiceFormatterW.wrapText fuel left (width - len right) = OutOfFuel).
Proof.
  cbv zeta. split; [vm_compute; reflexivity|]. split; [|split].
  - intros fuel. reflexivity.
  - reflexivity.
  - intros fuel. apply wrapText_loop_negative. vm_compute. reflexivity.
Qed.

(** ** Computations that take fuel *)

Section Fuel.

Lemma returns_ret {A} (a : A) : returns (fun _ => Ret a) a.
Proof. exists 0%nat. reflexivity. Qed.

Lemma returns_bind {A B} (m : nat -> outcome A) (k : A -> nat -> outcome B)
  (a : A) (b : B) :
  returns m a -> returns (k a) b ->
  returns (fun fuel => x <- m fuel ;; k x fuel) b.
Proof.
  intros [n Hm] [n' Hk]. exists (Nat.max n n'). intros fuel Hfuel.
  rewrite Hm by lia. simpl. apply Hk. lia.
Qed.

Lemma returns_functional {A} (run : nat -> outcome A) (a a' : A) :
  returns run a -> returns run a' -> a = a'.
Proof.
  intros [n Ha] [n' Ha'].
  specialize (Ha (Nat.max n n') ltac:(lia)).
  specialize (Ha' (Nat.max n n') ltac:(lia)). congruence.
Qed.

Lemma terminates_ret {A} (a : A) : terminates (fun _ => Ret a).
Proof. exists a. apply returns_ret. Qed.

Lemma terminates_bind {A B} (m : nat -> outcome A) (k : A -> nat -> outcome B) :
  terminates m -> (forall a, terminates (k a)) ->
  terminates (fun fuel => x <- m fuel ;; k x fuel).
Proof.
  intros [a Hm] Hk. destruct (Hk a) as [b Hb].
  exists b. now apply returns_bind with (a := a).
Qed.

Lemma terminates_mapM {A B} (f : nat -> A -> outcome B) (l : list A) :
  (forall a, In a l -> terminates (fun fuel => f fuel a)) ->
  terminates (fun fuel => mapM (f fuel) l).
Proof.
  induction l as [|a l IH]; intros Hf; simpl.
  - apply terminates_ret.
  - apply terminates_bind; [apply Hf; now left|]. intros b.
    apply terminates_bind; [apply IH; intros; apply Hf; now right|]. intros bs.
    apply terminates_ret.
Qed.

End Fuel.

(** ** The layout functions return *)

Section LayoutReturns.

Import InvoiceFormatterW.

Lemma wrapText_returns_wrapped (text : jsstring) (width : Z) :
  1 <= width ->
  exists w, Wrapped width text w
            /\ returns (fun fuel => wrapText fuel text width) w.
Proof.
  intros Hw. destruct (wrapText_returns text width Hw) as (w & HW & Hrun).
  exists w. split; [exact HW|].
  exists (S (List.length text)). intros fuel Hfuel. apply Hrun. lia.
Qed.

Lemma wrapText_terminates (text : jsstring) (width : Z) :
  1 <= width -> terminates (fun fuel => wrapText fuel text width).
Proof.
  intros Hw. destruct (wrapText_returns_wrapped text width Hw) as (w & _ & Hr).
  now exists w.
Qed.

(** Whatever the width, [leftRightTextWrapped] returns, and the right text
    stands in its result as it was passed. *)
Lemma leftRightTextWrapped_returns (left right : jsstring) (width : Z) :
  exists head tail,
    returns (fun fuel => leftRightTextWrapped fuel left right width)
      (head ++ right ++ tail).
Proof.
  unfold leftRightTextWrapped.
  destruct (width - len right <=? 0) eqn:Hw.
  - exists left, []. rewrite app_nil_r. apply returns_ret.
  - destruct (wrapText_returns_wrapped left (width - len right))
      as (w & _ & Hr); [lia|].
    destruct (splitOn LF w) as [|line rest] eqn:E;
      [now apply splitOn_not_nil in E|].
    exists (padEnd line (width - len right)),
      (concat (map (fun l => LF :: l) rest)).
    rewrite <- leftLines_forEach_first, <- E.
    eapply returns_bind; [exact Hr | apply returns_ret].
Qed.

Lemma leftRightTextWrapped_terminates (left right : jsstring) (width : Z) :
  terminates (fun fuel => leftRightTextWrapped fuel left right width).
Proof.
  destruct (leftRightTextWrapped_returns left right width) as (h & t & Hr).
  now exists (h ++ right ++ t).
Qed.

Lemma repeatStr_nonneg (s : jsstring) (count : Z) :
  0 <= count -> repeatStr s count = Ret (copies s (Z.to_nat count)).
Proof.
  intros Hc. unfold repeatStr. now replace (count <? 0) with false by lia.
Qed.

Lemma dottedLineLocal_terminates (width : Z) :
  0 <= width -> terminates (fun _ : nat => dottedLineLocal width).
Proof.
  intros Hw. unfold dottedLineLocal. rewrite repeatStr_nonneg by exact Hw.
  simpl. apply terminates_ret.
Qed.

(** The padding of [centerWrap] never has a negative count: the lines it
    pads come out of [wrapText]. *)
Lemma centerWrap_terminates (text : jsstring) (width : Z) :
  1 <= width -> terminates (fun fuel => centerWrap fuel text width).
Proof.
  intros Hw. unfold centerWrap.
  destruct (wrapText_returns_wrapped text width Hw) as (w & HW & Hr).
  pose proof (Wrapped_lines width text w ltac:(lia) HW) as Hlines.
  assert (Hpad : exists padded,
             mapM (fun line =>
                     spaces <- repeatStr [SP] (floorHalf (width - len line)) ;;
                     Ret (spaces ++ line)) (splitOn LF w) = Ret padded).
  { induction Hlines as [|line rest Hline _ IH]; simpl.
    - now exists [].
    - rewrite repeatStr_nonneg
        by (unfold floorHalf; apply Z.div_pos; lia).
      simpl. destruct IH as [padded ->]. simpl. eauto. }
  destruct Hpad as [padded Hpad].
  exists (join [LF] padded).
  eapply returns_bind; [exact Hr|].
  cbv beta. rewrite Hpad. simpl. apply returns_ret.
Qed.

End LayoutReturns.

(** ** Line items *)

Section LineItems.

Context {num : Type} {N : JSNumber num}.

(** The fixed-width formatter, on a line item with a discount. *)
Lemma formatLine_discount_fixed (name unit : option jsstring) (q p d : num)
  (fp : option num) :
  InvoiceFormatter.formatLine (lineItem name unit q p fp (Some d))
  = match fp with
    | Some full =>
        EscposCommands.leftRightText (quantityText unit q p)
          (num_toFixed2 full ++ lit "L") 48 ++ [LF]
    | None => quantityText unit q p ++ [LF]
    end
      ++ EscposCommands.leftRightText (orElse name [])
           (InvoiceFormatter.rightDiscountText d
              (num_sub (orElse fp num_zero) d)) 48
      ++ [LF].
Proof.
  unfold InvoiceFormatter.formatLine, lineItem, quantityText. simpl.
  destruct fp; now rewrite <- !app_assoc.
Qed.

(** The width-aware formatter, on a line item with a discount: once the
    first row is there, the second row is there too; it is the product
    name justified against the discount text, which stands in it as it
    is. *)
Lemma formatLine_discount_wrapped (name unit : option jsstring) (q p d : num)
  (fp : option num) (width : Z) (first : jsstring) :
  returns (fun fuel =>
             match fp with
             | Some full =>
                 r <- InvoiceFormatterW.leftRightTextWrapped fuel
                        (quantityText unit q p) (num_toFixed2 full ++ lit "L")
                        width ;;
                 Ret (r ++ [LF])
             | None =>
                 w <- InvoiceFormatterW.wrapText fuel (quantityText unit q p)
                        width ;;
                 Ret (w ++ [LF])
             end) first ->
  let discountText :=
    InvoiceFormatterW.rightDiscountText d (num_sub (orElse fp num_zero) d) in
  exists second,
    returns (fun fuel =>
               InvoiceFormatterW.leftRightTextWrapped fuel (orElse name [])
                 discountText width) second
    /\ (exists head tail, second = head ++ discountText ++ tail)
    /\ returns (fun fuel =>
                  InvoiceFormatterW.formatLine fuel width
                    (lineItem name unit q p fp (Some d)))
         (first ++ second ++ [LF]).
Proof.
  intros [n1 H1] discountText.
  destruct (leftRightTextWrapped_returns (orElse name []) discountText width)
    as (head & tail & [n2 H2]).
  exists (head ++ discountText ++ tail). split; [|split].
  - now exists n2.
  - now exists head, tail.
  - exists (Nat.max n1 n2). intros fuel Hfuel.
    unfold InvoiceFormatterW.formatLine, lineItem.
    cbn [quantity price fullPrice discountAmount productName uom].
    fold (quantityText unit q p).
    specialize (H1 fuel ltac:(lia)). specialize (H2 fuel ltac:(lia)).
    subst discountText.
    destruct fp as [full|]; cbn [orElse] in *; rewrite H1; cbn [bind];
      rewrite H2; cbn [bind]; reflexivity.
Qed.

Lemma firstRow_full_returns (unit : option jsstring) (q p full : num)
  (width : Z) :
  terminates (fun fuel =>
                r <- InvoiceFormatterW.leftRightTextWrapped fuel
                       (quantityText unit q p) (num_toFixed2 full ++ lit "L")
                       width ;;
                Ret (r ++ [LF])).
Proof.
  apply terminates_bind; [apply leftRightTextWrapped_terminates|].
  intros r. apply terminates_ret.
Qed.

Lemma firstRow_plain_returns (unit : option jsstring) (q p : num) (width : Z) :
  1 <= width ->
  terminates (fun fuel =>
                w <- InvoiceFormatterW.wrapText fuel (quantityText unit q p)
                       width ;;
                Ret (w ++ [LF])).
Proof.
  intros Hw. apply terminates_bind; [now apply wrapText_terminates|].
  intros r. apply terminates_ret.
Qed.

End LineItems.

(** C7. Discount arithmetic: on a line item with quantity, price, full
    price and discount, both formatters print, after the discount itself,
    the difference [fullPrice - discountAmount] as [toString] gives it,
    with no clamping; on integer amounts, 10 and 3 print 7, and 10 and 12
    print -2. *)
Theorem discount_arithmetic :
  (forall (num : Type) (N : JSNumber num) (name unit : option jsstring)
          (q p fp d : num),
      let line := lineItem name unit q p (Some fp) (Some d) in
      InvoiceFormatter.formatLine line
      = EscposCommands.leftRightText (quantityText unit q p)
          (num_toFixed2 fp ++ lit "L") 48 ++ [LF]
          ++ EscposCommands.leftRightText (orElse name [])
               (lit " -" ++ num_toString d ++ lit "L "
                  ++ num_toString (num_sub fp d) ++ lit "L") 48
          ++ [LF]
      /\ forall width, exists first second,
           returns (fun fuel => InvoiceFormatterW.formatLine fuel width line)
             (first ++ second ++ [LF])
           /\ returns (fun fuel =>
                         InvoiceFormatterW.leftRightTextWrapped fuel
                           (orElse name [])
                           (lit " -" ++ num_toString d ++ lit "L "
                              ++ num_toString (num_sub fp d) ++ lit "L")
                           width) second
           /\ exists head tail,
               second = head
                          ++ (lit " -" ++ num_toString d ++ lit "L "
                                ++ num_toString (num_sub fp d) ++ lit "L")
                          ++ tail)
  /\ InvoiceFormatterW.formatLine 20 48
       (lineItem (Some (lit "milk")) (Some (lit "pc")) 1 10 (Some 10) (Some 3))
     = Ret (lit "1  pc  x 10.00L                           10.00L" ++ [LF]
              ++ lit "milk                                      -3L 7L" ++ [LF])
  /\ InvoiceFormatterW.formatLine 20 48
       (lineItem (Some (lit "milk")) (Some (lit "pc")) 1 10 (Some 10) (Some 12))
     = Ret (lit "1  pc  x 10.00L                           10.00L" ++ [LF]
              ++ lit "milk                                    -12L -2L" ++ [LF])
  /\ InvoiceFormatter.formatLine
       (lineItem (Some (lit "milk")) (Some (lit "pc")) 1 10 (Some 10) (Some 3))
     = lit "1  pc  x 10.00L                           10.00L" ++ [LF]
         ++ lit "milk                                      -3L 7L" ++ [LF].
Proof.
  split; [|repeat split; reflexivity].
  intros num N name unit q p fp d line. subst line. split.
  - rewrite (formatLine_discount_fixed name unit q p d (Some fp)).
    now rewrite <- app_assoc.
  - intros width.
    destruct (firstRow_full_returns unit q p fp width) as [first Hfirst].
    destruct (formatLine_discount_wrapped name unit q p d (Some fp) width
                first Hfirst) as (second & Hsecond & Hin & Hline).
    exists first, second. auto.
Qed.

(** C9. Missing full price: on a line item with quantity, price and
    discount but no full price, both formatters take the full price to be
    [0] and print [0 - discountAmount] as [toString] gives it. The
    fixed-width formatter prints the quantity row, then the product name,
    the spaces that fill the 48 columns (none when name and amounts fill
    them) and the text [ -<discount>L <0 - discount>L]; the width-aware
    formatter returns for every width of at least 1 and the same text
    stands in its second row. On integer amounts, a discount of 3 prints
    [-3L -3L]. *)
Theorem discount_without_fullPrice :
  (forall (num : Type) (N : JSNumber num) (name unit : option jsstring)
          (q p d : num),
      let line := lineItem name unit q p None (Some d) in
      let discountText :=
        lit " -" ++ num_toString d ++ lit "L "
          ++ num_toString (num_sub num_zero d) ++ lit "L" in
      InvoiceFormatter.formatLine line
      = quantityText unit q p ++ [LF]
          ++ orElse name []
          ++ copies [SP]
               (Z.to_nat (48 - len (orElse name []) - len discountText))
          ++ discountText ++ [LF]
      /\ forall width, 1 <= width ->
           exists first second,
             returns (fun fuel => InvoiceFormatterW.formatLine fuel width line)
               (first ++ second ++ [LF])
             /\ returns (fun fuel =>
                           InvoiceFormatterW.leftRightTextWrapped fuel
                             (orElse name []) discountText width) second
             /\ exists head tail, second = head ++ discountText ++ tail)
  /\ InvoiceFormatter.formatLine
       (lineItem (Some (lit "milk")) (Some (lit "pc")) 1 10 None (Some 3))
     = lit "1  pc  x 10.00L" ++ [LF]
         ++ lit "milk                                     -3L -3L" ++ [LF]
  /\ InvoiceFormatterW.formatLine 20 48
       (lineItem (Some (lit "milk")) (Some (lit "pc")) 1 10 None (Some 3))
     = Ret (lit "1  pc  x 10.00L" ++ [LF]
              ++ lit "milk                                     -3L -3L" ++ [LF])
  /\ InvoiceFormatter.formatLine
       (lineItem None None 2 5 None (Some 12))
     = lit "2    x 5.00L" ++ [LF]
         ++ lit "                                       -12L -12L" ++ [LF].
Proof.
  split; [|repeat split; reflexivity].
  intros num N name unit q p d line discountText. subst line discountText.
  split.
  - rewrite (formatLine_discount_fixed name unit q p d None).
    rewrite leftRightText_spaces.
    unfold InvoiceFormatter.rightDiscountText. cbn [orElse].
    now rewrite <- !app_assoc.
  - intros width Hw.
    destruct (firstRow_plain_returns unit q p width Hw) as [first Hfirst].
    destruct (formatLine_discount_wrapped name unit q p d None width
                first Hfirst) as (second & Hsecond & Hin & Hline).
    exists first, second. auto.
Qed.

Lemma discount_without_fullPrice_witness :
  1 <= 48
  /\ exists first second,
      returns (fun fuel =>
                 InvoiceFormatterW.formatLine fuel 48
                   (lineItem (Some (lit "milk")) (Some (lit "pc")) 1 10 None
                      (Some 3)))
        (first ++ second ++ [LF])
      /\ returns (fun fuel =>
                    InvoiceFormatterW.leftRightTextWrapped fuel
                      (orElse (Some (lit "milk")) [])
                      (lit " -" ++ num_toString 3 ++ lit "L "
                         ++ num_toString (num_sub num_zero 3) ++ lit "L")
                      48) second
      /\ exists head tail,
          second = head
                     ++ (lit " -" ++ num_toString 3 ++ lit "L "
                           ++ num_toString (num_sub num_zero 3) ++ lit "L")
                     ++ tail.
Proof.
  split; [lia|].
  apply (proj2 (proj1 discount_without_fullPrice Z IntegerAmount
                  (Some (lit "milk")) (Some (lit "pc")) 1 10 3)).
  lia.
Defined.

(** ** The formatters return *)

Section FormatterReturns.

Import InvoiceFormatterW.

Context {num : Type} {N : JSNumber num}.

(** Walks down a chain of binds, closing each step with [step]. *)
Ltac run_steps step :=
  first
    [ apply terminates_ret
    | apply terminates_bind; [ step | intros ?; run_steps step ] ].

Lemma wrappedLine_terminates (present : bool) (text : jsstring) (width : Z) :
  1 <= width -> terminates (fun fuel => wrappedLine fuel present text width).
Proof.
  intros Hw. unfold wrappedLine. destruct present.
  - apply terminates_bind; [now apply wrapText_terminates|].
    intros w. apply terminates_ret.
  - apply terminates_ret.
Qed.

Lemma centeredLine_terminates (present : bool) (text : jsstring) (width : Z) :
  1 <= width -> terminates (fun fuel => centeredLine fuel present text width).
Proof.
  intros Hw. unfold centeredLine. destruct present.
  - apply terminates_bind; [now apply centerWrap_terminates|].
    intros w. apply terminates_ret.
  - apply terminates_ret.
Qed.

Lemma headerSection_terminates (invoice : Invoice num) (width : Z) :
  1 <= width -> terminates (fun fuel => headerSection fuel invoice width).
Proof.
  intros Hw. unfold headerSection.
  run_steps ltac:(now apply wrappedLine_terminates).
Qed.

Lemma detailsSection_terminates (invoice : Invoice num) (width : Z) :
  1 <= width -> terminates (fun fuel => detailsSection fuel invoice width).
Proof.
  intros Hw. unfold detailsSection.
  run_steps ltac:(first [ now apply wrappedLine_terminates
                        | apply dottedLineLocal_terminates; lia ]).
Qed.

Lemma formatLine_terminates (line : LineItem num) (width : Z) :
  1 <= width -> terminates (fun fuel => formatLine fuel width line).
Proof.
  intros Hw. unfold formatLine.
  destruct (quantity line) as [q|]; [|apply terminates_ret].
  destruct (price line) as [p|]; [|apply terminates_ret].
  apply terminates_bind.
  - destruct (fullPrice line) as [fp|].
    + run_steps ltac:(apply leftRightTextWrapped_terminates).
    + run_steps ltac:(now apply wrapText_terminates).
  - intros first. apply terminates_bind; [|intros; apply terminates_ret].
    destruct (discountAmount line) as [d|];
      run_steps ltac:(apply leftRightTextWrapped_terminates).
Qed.

Lemma productsSection_terminates (invoice : Invoice num) (width : Z) :
  1 <= width -> terminates (fun fuel => productsSection fuel invoice width).
Proof.
  intros Hw. unfold productsSection.
  destruct (lines invoice) as [[|l ls]|]; try apply terminates_ret.
  apply terminates_bind.
  - apply (terminates_mapM (fun fuel => formatLine fuel width)).
    intros line _. now apply formatLine_terminates.
  - intros rows. run_steps ltac:(apply dottedLineLocal_terminates; lia).
Qed.

Lemma totalRow_terminates (label : jsstring) (field : option num) (width : Z) :
  terminates (fun fuel => totalRow fuel label field width).
Proof.
  unfold totalRow. destruct field as [n|];
    run_steps ltac:(apply leftRightTextWrapped_terminates).
Qed.

Lemma formatVat_terminates (vatItem : VatItem num) (width : Z) :
  terminates (fun fuel => formatVat fuel width vatItem).
Proof.
  unfold formatVat.
  destruct (vatType vatItem) as [ty|]; [|apply terminates_ret].
  destruct (amount vatItem) as [a|];
    run_steps ltac:(apply leftRightTextWrapped_terminates).
Qed.

Lemma totalsSection_terminates (invoice : Invoice num) (width : Z) :
  terminates (fun fuel => totalsSection fuel invoice width).
Proof.
  unfold totalsSection.
  apply terminates_bind; [apply totalRow_terminates | intros noVat].
  apply terminates_bind; [apply totalRow_terminates | intros disc].
  apply terminates_bind.
  - destruct (vat invoice) as [[|v vs]|]; try apply terminates_ret.
    apply terminates_bind; [|intros; apply terminates_ret].
    apply (terminates_mapM (fun fuel => formatVat fuel width)).
    intros vatItem _. apply formatVat_terminates.
  - intros vats. apply terminates_bind; [|intros; apply terminates_ret].
    destruct (totalPrice invoice) as [n|];
      run_steps ltac:(apply leftRightTextWrapped_terminates).
Qed.

Lemma trailerSection_terminates (invoice : Invoice num) (width : Z) :
  1 <= width -> terminates (fun fuel => trailerSection fuel invoice width).
Proof.
  intros Hw. unfold trailerSection.
  run_steps ltac:(first [ now apply centerWrap_terminates
                        | now apply centeredLine_terminates ]).
Qed.

(** A value passes the guard of [formatInvoice] exactly when it is an
    object. *)
Lemma guard_notAnObject (v : value num) :
  notAnObject v ->
  negb (truthy v) || negb (eqb (typeof v) (lit "object")) = true.
Proof.
  intros [-> | [-> | Hty]]; try reflexivity.
  destruct v; try reflexivity; try apply orb_true_r.
  exfalso. apply Hty. reflexivity.
Qed.

Lemma guard_object (invoice : Invoice num) :
  negb (truthy (VObject invoice))
  || negb (eqb (typeof (VObject invoice)) (lit "object")) = false.
Proof. reflexivity. Qed.


(** The fixed-width formatter returns on every invoice object. *)
Lemma formatInvoice_fixed_returns (invoice : Invoice num) :
  exists commands,
    InvoiceFormatter.formatInvoice (VObject invoice) = Ret commands.
Proof.
  unfold InvoiceFormatter.formatInvoice. rewrite guard_object.
  unfold EscposCommands.dottedLine.
  rewrite repeatStr_nonneg by lia. cbn [bind].
  destruct (lines invoice) as [[|l ls]|]; cbn [bind];
    destruct (truthyStr (CustomerName invoice)
              || truthyStr (CustomerTin invoice)
              || truthyStr (CustomerContact invoice)
              || truthyStr (CustomerAddress invoice));
    cbn [bind]; eauto.
Qed.

(** The width-aware formatter returns on every invoice object when the
    printer width is usable. *)
Lemma formatInvoice_wrapped_returns (invoice : Invoice num)
  (printerWidth : option Z) :
  usableWidth printerWidth ->
  terminates (fun fuel => formatInvoice fuel (VObject invoice) printerWidth).
Proof.
  intros Hw. unfold formatInvoice. rewrite guard_object.
  set (width := match printerWidth with
                | Some w => if w =? 0 then 48 else w
                | None => 48
                end).
  assert (Hwidth : 1 <= width).
  { subst width. destruct printerWidth as [w|]; [|lia]. simpl in Hw.
    destruct (Z.eqb_spec w 0); lia. }
  apply terminates_bind; [now apply headerSection_terminates | intros head].
  apply terminates_bind; [now apply detailsSection_terminates | intros details].
  apply terminates_bind; [now apply productsSection_terminates | intros products].
  apply terminates_bind; [apply totalsSection_terminates | intros totals].
  apply terminates_bind; [now apply trailerSection_terminates | intros trailer].
  apply terminates_ret.
Qed.

(** With a negative width and nothing to wrap before it, the dotted line
    is the first thing to fail. *)
Lemma formatInvoice_negative_width (width : Z) (fuel : nat) :
  width < 0 ->
  formatInvoice fuel (VObject (@emptyInvoice num)) (Some width)
  = Throw RangeError.
Proof.
  intros Hw. unfold formatInvoice. rewrite guard_object.
  replace (width =? 0) with false by lia.
  unfold headerSection, detailsSection, wrappedLine, dottedLineLocal, repeatStr.
  cbn [emptyInvoice header tin address invoiceType invNumber fiscString buCode
         opCode Date FiscDateRange TaxPointDate truthyStr present bind].
  now replace (width <? 0) with true by lia.
Qed.

End FormatterReturns.

(** C6 (as amended). Failure semantics: on a value that is not an object,
    both formatters return the empty string without raising; on an invoice
    object the fixed-width formatter returns without raising, and so does
    the width-aware formatter whenever the printer width is absent, zero or
    positive. *)
Theorem formatInvoice_failure_semantics :
  forall (num : Type) (N : JSNumber num) (v : value num),
    (notAnObject v ->
     InvoiceFormatter.formatInvoice v = Ret []
     /\ forall fuel printerWidth,
          InvoiceFormatterW.formatInvoice fuel v printerWidth = Ret [])
    /\ (forall invoice, v = VObject invoice ->
        (exists commands, InvoiceFormatter.formatInvoice v = Ret commands)
        /\ forall printerWidth, usableWidth printerWidth ->
             exists commands,
               returns (fun fuel =>
                          InvoiceFormatterW.formatInvoice fuel v printerWidth)
                 commands).
Proof.
  intros num N v. split.
  - intros Hv. pose proof (guard_notAnObject v Hv) as Hguard. split.
    + unfold InvoiceFormatter.formatInvoice. now rewrite Hguard.
    + intros fuel printerWidth.
      unfold InvoiceFormatterW.formatInvoice. now rewrite Hguard.
  - intros invoice ->. split.
    + apply formatInvoice_fixed_returns.
    + intros printerWidth Hw.
      apply (formatInvoice_wrapped_returns invoice printerWidth Hw).
Qed.

Lemma formatInvoice_failure_semantics_witness :
  (InvoiceFormatter.formatInvoice (@VNull Z) = Ret []
   /\ forall fuel printerWidth,
        InvoiceFormatterW.formatInvoice fuel (@VNull Z) printerWidth = Ret [])
  /\ (exists commands,
         InvoiceFormatter.formatInvoice (VObject (@emptyInvoice Z)) = Ret commands)
  /\ exists commands,
      returns (fun fuel =>
                 InvoiceFormatterW.formatInvoice fuel
                   (VObject (@emptyInvoice Z)) (Some 32))
        commands.
Proof.
  split; [|split].
  - apply (proj1 (formatInvoice_failure_semantics Z IntegerAmount VNull)).
    left. reflexivity.
  - apply (proj2 (formatInvoice_failure_semantics Z IntegerAmount
                    (VObject emptyInvoice)) emptyInvoice eq_refl).
  - apply (proj2 (formatInvoice_failure_semantics Z IntegerAmount
                    (VObject emptyInvoice)) emptyInvoice eq_refl).
    simpl. lia.
Defined.

(** C6 as stated fails for the width-aware formatter: the invoice object
    without fields, formatted for a printer width of -1, raises a
    [RangeError] (the count of the dotted line is negative). *)
Lemma formatInvoice_failure_semantics_counterexample :
  typeof (VObject (@emptyInvoice Z)) = lit "object"
  /\ forall fuel,
      InvoiceFormatterW.formatInvoice fuel (VObject (@emptyInvoice Z)) (Some (-1))
      = Throw RangeError.
Proof.
  split; [reflexivity|].
  intros fuel. apply formatInvoice_negative_width. lia.
Qed.

(** ** Searching and trimming *)

Section Searching.

Lemma eqb_eq (s t : jsstring) : eqb s t = true <-> s = t.
Proof.
  unfold eqb. destruct (list_eq_dec N.eq_dec s t); split; congruence.
Qed.

Lemma eqb_nil_false (s : jsstring) : s <> [] -> negb (eqb s []) = true.
Proof.
  intros Hs. destruct (eqb s []) eqn:E; [|reflexivity].
  apply eqb_eq in E. contradiction.
Qed.

(** [indexOf] finds the first occurrence, and answers [-1] only when there
    is none. *)
Lemma indexOfFrom_spec (p : jsstring) :
  forall s pos,
    (indexOfFrom s p pos = -1 /\ forall pre, ~ occursAt p s pre)
    \/ exists pre,
         occursAt p s pre
         /\ indexOfFrom s p pos = pos + len pre
         /\ forall pre', occursAt p s pre' -> len pre <= len pre'.
Proof.
  induction s as [|c s IH]; intros pos.
  - destruct (startsWith [] p) eqn:Hp.
    + right. exists []. apply startsWith_prefix in Hp. destruct Hp as [t Ht].
      split; [exists t; exact Ht|]. split.
      * simpl. destruct p; [simpl; rewrite len_nil; lia | discriminate].
      * intros pre' _. rewrite len_nil. apply len_nonneg.
    + left. split.
      * unfold indexOfFrom. now rewrite Hp.
      * intros pre [post Hocc]. symmetry in Hocc.
        apply app_eq_nil in Hocc. destruct Hocc as [_ Hocc].
        apply app_eq_nil in Hocc. destruct Hocc as [-> _]. discriminate.
  - destruct (startsWith (c :: s) p) eqn:Hp.
    + right. exists []. apply startsWith_prefix in Hp. destruct Hp as [t Ht].
      split; [exists t; exact Ht|]. split.
      * simpl indexOfFrom.
        replace (startsWith (c :: s) p) with true
          by (rewrite Ht; symmetry; apply startsWith_app).
        rewrite len_nil. lia.
      * intros pre' _. rewrite len_nil. apply len_nonneg.
    + assert (Hstep : indexOfFrom (c :: s) p pos = indexOfFrom s p (pos + 1)).
      { simpl. now rewrite Hp. }
      destruct (IH (pos + 1)) as [[Hnone Hno] | (pre & [post Hocc] & Hidx & Hmin)].
      * left. split; [congruence|].
        intros [|d pre] [post Hocc].
        -- simpl in Hocc. rewrite Hocc, startsWith_app in Hp. discriminate.
        -- injection Hocc as -> Hocc. apply (Hno pre). now exists post.
      * right. exists (c :: pre). split; [|split].
        -- exists post. simpl. now rewrite Hocc.
        -- rewrite Hstep, Hidx, len_cons. lia.
        -- intros [|d pre'] [post' Hocc'].
           ++ simpl in Hocc'. rewrite Hocc', startsWith_app in Hp. discriminate.
           ++ injection Hocc' as -> Hocc'. rewrite !len_cons.
              specialize (Hmin pre' (ex_intro _ post' Hocc')). lia.
Qed.

Lemma indexOf_spec (p s : jsstring) :
  (indexOf s p = -1 /\ forall pre, ~ occursAt p s pre)
  \/ exists pre,
       occursAt p s pre
       /\ indexOf s p = len pre
       /\ forall pre', occursAt p s pre' -> len pre <= len pre'.
Proof.
  destruct (indexOfFrom_spec p s 0) as [H | (pre & H1 & H2 & H3)].
  - now left.
  - right. exists pre. unfold indexOf. rewrite H2. repeat split; auto.
Qed.


Lemma trimStart_all (s : jsstring) :
  Forall (fun c => isWhiteSpace c = true) s -> trimStart s = [].
Proof.
  induction 1 as [|c s Hc _ IH]; simpl; [reflexivity|]. now rewrite Hc.
Qed.

Lemma trimStart_nil (s : jsstring) :
  trimStart s = [] -> Forall (fun c => isWhiteSpace c = true) s.
Proof.
  induction s as [|c s IH]; simpl; [constructor|].
  destruct (isWhiteSpace c) eqn:Hc; [|discriminate].
  intros Hs. constructor; auto.
Qed.

Lemma trim_nil (s : jsstring) :
  trim s = [] <-> Forall (fun c => isWhiteSpace c = true) s.
Proof.
  unfold trim, trimEnd. split.
  - intros Ht. apply trimStart_nil.
    assert (Hrev : trimStart (rev (trimStart s)) = []).
    { rewrite <- (rev_involutive (trimStart (rev (trimStart s)))), Ht.
      reflexivity. }
    apply trimStart_nil in Hrev. apply Forall_rev in Hrev.
    rewrite rev_involutive in Hrev.
    destruct (trimStart s) as [|c t] eqn:E; [reflexivity|].
    exfalso. inversion Hrev as [|? ? Hc _]; subst.
    clear -E Hc. induction s as [|d s IH]; simpl in E; [discriminate|].
    destruct (isWhiteSpace d) eqn:Hd; [now apply IH|].
    injection E as -> _. congruence.
  - intros Hs. now rewrite (trimStart_all s Hs).
Qed.



Lemma slice_after (pre rest : jsstring) (k : Z) :
  k = len pre -> slice (pre ++ rest) k = rest.
Proof.
  intros ->. unfold slice. pose proof (len_nonneg pre).
  replace (len pre <? 0) with false by lia.
  rewrite Z.min_l by (rewrite len_app; pose proof (len_nonneg rest); lia).
  unfold len. rewrite Nat2Z.id. rewrite skipn_app, Nat.sub_diag.
  now rewrite skipn_all.
Qed.


End Searching.

(** ** Dispatch *)

Section Delimiter.

Import Server.



End Delimiter.

Section DispatchFacts.

Import Server.

Context {num : Type} {N : JSNumber num}.
Variable JSON_parse : jsstring -> outcome (value num).
Variable printer : Printer.

Lemma printStatus2_bad_request (fuel : nat) (requestStr : jsstring) :
  indexOf requestStr delimiter < 0
  \/ (0 <= indexOf requestStr delimiter
      /\ trim (slice requestStr
                 (indexOf requestStr delimiter + len delimiter)) = []) ->
  printStatus2 JSON_parse printer fuel requestStr = Ret status400.
Proof.
  unfold printStatus2. intros [Hno | [Hfound Hblank]].
  - now replace (indexOf requestStr delimiter >=? 0) with false by lia.
  - replace (indexOf requestStr delimiter >=? 0) with true by lia.
    now rewrite Hblank.
Qed.


(** The prefixes the handlers test exclude one another. *)
Lemma print_not_options (requestStr : jsstring) :
  startsWith requestStr (lit "POST /print") = true ->
  startsWith requestStr (lit "OPTIONS") = false.
Proof.
  intros Hp. apply startsWith_prefix in Hp. destruct Hp as [t ->]. reflexivity.
Qed.

(** The second handler on a [POST /print] request. *)
Lemma onData2_print (fuel : nat) (data : jsstring) :
  startsWith (trim data) (lit "POST /print") = true ->
  onData2 JSON_parse printer fuel data
  = statusLine <- printStatus2 JSON_parse printer fuel (trim data) ;;
    Ret (postResponse2 statusLine).
Proof.
  intros Hp. unfold onData2. now rewrite (print_not_options _ Hp), Hp.
Qed.

(** [printInvoice] of the second variant returns when no printer is
    connected, and when the invoice object is formatted for a usable width
    and the transport accepts the bytes. *)
Lemma printInvoice2_idle (fuel : nat) (invoice : value num) :
  connected printer = false -> printInvoice2 printer fuel invoice = Ret tt.
Proof. intros Hc. unfold printInvoice2. now rewrite Hc. Qed.

Lemma printInvoice2_prints (invoice : Invoice num) :
  (forall bytes, writeToDevice printer bytes = true) ->
  0 <= orElse (printerWidth invoice) (configuredWidth printer) ->
  returns (fun fuel => printInvoice2 printer fuel (VObject invoice)) tt.
Proof.
  intros Hwrite Hw. unfold printInvoice2.
  destruct (connected printer); [|apply returns_ret]. cbn [negb invoiceWidth bind].
  destruct (formatInvoice_wrapped_returns invoice
              (Some (orElse (printerWidth invoice) (configuredWidth printer))) Hw)
    as [commands [n Hrun]].
  exists n. intros fuel Hfuel. unfold formatAndWrite.
  rewrite Hrun by exact Hfuel. cbn [bind]. now rewrite Hwrite.
Qed.







End DispatchFacts.




(** * Further properties of the layout functions *)

Section SplitJoin.

(** The lines of a string hold no separator. *)
Lemma splitOn_lines_clean (sep : char) (s : jsstring) :
  Forall (fun line => ~ In sep line) (splitOn sep s).
Proof.
  induction s as [|c s IH]; simpl.
  - constructor; [tauto | constructor].
  - destruct (N.eqb_spec c sep) as [E | NE].
    + constructor; [tauto | exact IH].
    + destruct (splitOn sep s) as [|l ls]; [repeat constructor; simpl; intuition|].
      inversion IH; subst. constructor; [|assumption].
      simpl. intros [E | Hin]; [now apply NE | contradiction].
Qed.

(** Clean lines, each after the first on a line of its own, split back
    into themselves. *)
Lemma splitOn_concat_lines (sep : char) (first : jsstring) (rest : list jsstring) :
  ~ In sep first ->
  Forall (fun line => ~ In sep line) rest ->
  splitOn sep (first ++ concat (map (fun line => sep :: line) rest))
  = first :: rest.
Proof.
  revert first. induction rest as [|l rest IH]; intros first Hfirst Hrest.
  - simpl. rewrite app_nil_r. now apply splitOn_no_sep.
  - inversion Hrest; subst. cbn [map concat app].
    rewrite splitOn_app_sep, (splitOn_no_sep sep first Hfirst).
    now rewrite IH.
Qed.

Lemma join_concat (sep : char) (first : jsstring) (rest : list jsstring) :
  join [sep] (first :: rest)
  = first ++ concat (map (fun line => sep :: line) rest).
Proof.
  revert first. induction rest as [|l rest IH]; intros first.
  - simpl. now rewrite app_nil_r.
  - change (join [sep] (first :: l :: rest))
      with (first ++ [sep] ++ join [sep] (l :: rest)).
    now rewrite IH.
Qed.

(** [split] undoes [join] on clean lines. *)
Lemma splitOn_join (sep : char) (ls : list jsstring) :
  ls <> [] ->
  Forall (fun line => ~ In sep line) ls ->
  splitOn sep (join [sep] ls) = ls.
Proof.
  intros Hne Hclean. destruct ls as [|first rest]; [contradiction|].
  inversion Hclean; subst.
  rewrite join_concat. now apply splitOn_concat_lines.
Qed.

Lemma singleLine_firstn (n : nat) (s : jsstring) :
  singleLine s -> singleLine (firstn n s).
Proof.
  intros Hs Hin. apply Hs.
  rewrite <- (firstn_skipn n s). apply in_or_app. now left.
Qed.

Lemma singleLine_skipn (n : nat) (s : jsstring) :
  singleLine s -> singleLine (skipn n s).
Proof.
  intros Hs Hin. apply Hs.
  rewrite <- (firstn_skipn n s). apply in_or_app. now right.
Qed.

Lemma lineBreaks_app (s t : jsstring) :
  lineBreaks (s ++ t) = lineBreaks s + lineBreaks t.
Proof. unfold lineBreaks. now rewrite filter_app, len_app. Qed.

End SplitJoin.

Section WrappingMore.

Import InvoiceFormatterW.

Lemma wrap_rest_length (text : jsstring) (width : Z) :
  0 <= width -> len text > width ->
  len (substringFrom text width) = len text - width.
Proof.
  intros Hw Hlong. destruct (wrap_cut text width Hw Hlong) as [Hcut Hlen].
  rewrite <- Hcut at 2. rewrite len_app. lia.
Qed.

(** The wrapped text is longer than the text by the breaks put in, and
    their number is known. *)
Lemma Wrapped_growth (width : Z) (text w : jsstring) :
  1 <= width -> Wrapped width text w -> text <> [] ->
  len w = len text + (len text - 1) / width
  /\ lineBreaks w = lineBreaks text + (len text - 1) / width.
Proof.
  intros Hw HW. induction HW as [text Hfit | text rest Hlong HW IH]; intros Hne.
  - assert (1 <= len text).
    { destruct text; [contradiction|]. rewrite len_cons.
      pose proof (len_nonneg text). lia. }
    rewrite Z.div_small by lia. lia.
  - pose proof (wrap_rest_length text width ltac:(lia) Hlong) as Hrest.
    destruct (wrap_cut text width ltac:(lia) Hlong) as [Hcut Hsub].
    destruct IH as [IHlen IHbreaks].
    { intros E. rewrite E, len_nil in Hrest. lia. }
    assert (Hdiv : (len text - width - 1) / width = (len text - 1) / width - 1).
    { replace (len text - width - 1) with (len text - 1 + (-1) * width) by lia.
      rewrite Z.div_add by lia. lia. }
    split.
    + rewrite !len_app, Hsub, IHlen, Hrest, Hdiv.
      change (len [LF]) with 1. lia.
    + rewrite !lineBreaks_app, IHbreaks, Hrest, Hdiv.
      change (lineBreaks [LF]) with 1.
      assert (Htext : lineBreaks text
                      = lineBreaks (substring text 0 width)
                        + lineBreaks (substringFrom text width))
        by (now rewrite <- lineBreaks_app, Hcut).
      lia.
Qed.

(** On a text without line break, every line but the last is full. *)
Lemma Wrapped_full_lines (width : Z) (text w : jsstring) :
  1 <= width -> Wrapped width text w -> singleLine text -> text <> [] ->
  Forall (fun line => len line = width) (removelast (splitOn LF w))
  /\ 1 <= len (last (splitOn LF w) []) <= width.
Proof.
  intros Hw HW. induction HW as [text Hfit | text rest Hlong HW IH];
    intros Hline Hne.
  - rewrite splitOn_no_sep by exact Hline. simpl. split; [constructor|].
    destruct text; [contradiction|]. rewrite len_cons in *.
    pose proof (len_nonneg text). lia.
  - pose proof (wrap_rest_length text width ltac:(lia) Hlong) as Hrest.
    destruct (wrap_cut text width ltac:(lia) Hlong) as [_ Hsub].
    destruct IH as [IHfull IHlast].
    { rewrite substringFrom_suffix by lia. now apply singleLine_skipn. }
    { intros E. rewrite E, len_nil in Hrest. lia. }
    simpl app. rewrite splitOn_app_sep.
    rewrite (splitOn_no_sep LF (substring text 0 width))
      by (rewrite substring_prefix by lia; now apply singleLine_firstn).
    pose proof (splitOn_not_nil LF rest) as Hnil.
    destruct (splitOn LF rest) as [|l ls] eqn:E; [contradiction|].
    split.
    + change ([substring text 0 width] ++ l :: ls)
        with (substring text 0 width :: l :: ls).
      change (removelast (substring text 0 width :: l :: ls))
        with (substring text 0 width :: removelast (l :: ls)).
      now constructor.
    + exact IHlast.
Qed.

(** With nothing to cut off, the loop turns forever on a text that is not
    empty. *)
Lemma wrapText_loop_stuck (width : Z) (text : jsstring) (fuel : nat) :
  width <= 0 -> text <> [] ->
  forall result, wrapText_loop fuel result text width = OutOfFuel.
Proof.
  intros Hw Hne.
  assert (Hlen : 0 < len text).
  { destruct text; [contradiction|]. rewrite len_cons.
    pose proof (len_nonneg text). lia. }
  assert (Hsame : substringFrom text width = text).
  { unfold substringFrom, clampIndex. rewrite Z.max_r, Z.min_l by lia.
    reflexivity. }
  induction fuel as [|fuel IH]; intros result; simpl; [reflexivity|].
  replace (len text >? width) with true by lia.
  rewrite Hsame. apply IH.
Qed.

End WrappingMore.

(** X1. For a width of at least one and a text that is not empty,
    [wrapText] puts in exactly [(len text - 1) / width] line breaks: the
    result is that much longer than the text and holds that many more line
    breaks. *)
Theorem wrapText_break_count (text : jsstring) (width : Z) :
  1 <= width ->
  text <> [] ->
  exists wrapped,
    (forall fuel, (List.length text < fuel)%nat ->
                  InvoiceFormatterW.wrapText fuel text width = Ret wrapped)
    /\ len wrapped = len text + (len text - 1) / width
    /\ lineBreaks wrapped = lineBreaks text + (len text - 1) / width.
Proof.
  intros Hw Hne.
  destruct (wrapText_returns text width Hw) as (w & HW & Hrun).
  exists w. split; [exact Hrun|].
  now apply Wrapped_growth.
Qed.

Lemma wrapText_break_count_witness :
  exists wrapped,
    (forall fuel, (List.length (lit "0123456789abcdefghij") < fuel)%nat ->
                  InvoiceFormatterW.wrapText fuel (lit "0123456789abcdefghij") 8
                  = Ret wrapped)
    /\ len wrapped
       = len (lit "0123456789abcdefghij")
         + (len (lit "0123456789abcdefghij") - 1) / 8
    /\ lineBreaks wrapped
       = lineBreaks (lit "0123456789abcdefghij")
         + (len (lit "0123456789abcdefghij") - 1) / 8.
Proof.
  apply (wrapText_break_count (lit "0123456789abcdefghij") 8).
  - lia.
  - discriminate.
Defined.

(** X2. For a width of at least one and a text without line break that is
    not empty, every physical line of the wrapped text but the last is
    exactly [width] long, and the last one holds between 1 and [width]
    code units: no empty line is put out. *)
Theorem wrapText_full_lines (text : jsstring) (width : Z) :
  1 <= width ->
  singleLine text ->
  text <> [] ->
  exists wrapped,
    (forall fuel, (List.length text < fuel)%nat ->
                  InvoiceFormatterW.wrapText fuel text width = Ret wrapped)
    /\ Forall (fun line => len line = width) (removelast (splitOn LF wrapped))
    /\ 1 <= len (last (splitOn LF wrapped) []) <= width.
Proof.
  intros Hw Hline Hne.
  destruct (wrapText_returns text width Hw) as (w & HW & Hrun).
  exists w. split; [exact Hrun|].
  now apply (Wrapped_full_lines width text).
Qed.

Lemma wrapText_full_lines_witness :
  exists wrapped,
    (forall fuel, (List.length (lit "0123456789abcdefghij") < fuel)%nat ->
                  InvoiceFormatterW.wrapText fuel (lit "0123456789abcdefghij") 8
                  = Ret wrapped)
    /\ Forall (fun line => len line = 8) (removelast (splitOn LF wrapped))
    /\ 1 <= len (last (splitOn LF wrapped) []) <= 8.
Proof.
  apply (wrapText_full_lines (lit "0123456789abcdefghij") 8).
  - lia.
  - unfold singleLine. vm_compute. intuition discriminate.
  - discriminate.
Defined.

(** X3. With a width of zero or less, [wrapText] never returns on a text
    that is not empty: its loop cuts nothing off and runs forever. *)
Theorem wrapText_no_progress (text : jsstring) (width : Z) :
  width <= 0 ->
  text <> [] ->
  forall fuel, InvoiceFormatterW.wrapText fuel text width = OutOfFuel.
Proof.
  intros Hw Hne fuel. unfold InvoiceFormatterW.wrapText.
  now apply wrapText_loop_stuck.
Qed.

Lemma wrapText_no_progress_witness :
  0 <= 0
  /\ (forall fuel, InvoiceFormatterW.wrapText fuel (lit "milk") 0 = OutOfFuel)
  /\ InvoiceFormatterW.wrapText 1 [] 0 = Ret [].
Proof.
  split; [lia|]. split; [|reflexivity].
  apply (wrapText_no_progress (lit "milk") 0).
  - lia.
  - discriminate.
Defined.

Section CenteringMore.

Import InvoiceFormatterW.

Lemma centered_length (width : Z) (line : jsstring) :
  len line <= width -> len (centered width line) <= width.
Proof.
  intros Hfit. unfold centered, floorHalf.
  rewrite len_app, len_copies_char.
  assert (0 <= (width - len line) / 2) by (apply Z.div_pos; lia).
  assert ((width - len line) / 2 <= width - len line)
    by (apply Z.div_le_upper_bound; lia).
  lia.
Qed.

Lemma centered_clean (width : Z) (line : jsstring) :
  singleLine line -> singleLine (centered width line).
Proof.
  intros Hline. unfold centered.
  apply singleLine_app; [apply copies_space_singleLine | exact Hline].
Qed.

(** The [map] of [centerWrap] on lines that fit: no padding count is
    negative. *)
Lemma center_lines (width : Z) (lines : list jsstring) :
  Forall (fun line => len line <= width) lines ->
  mapM (fun line =>
          spaces <- repeatStr [SP] (floorHalf (width - len line)) ;;
          Ret (spaces ++ line)) lines
  = Ret (map (centered width) lines).
Proof.
  induction 1 as [|line rest Hline _ IH]; [reflexivity|].
  cbn [mapM map].
  rewrite repeatStr_nonneg by (unfold floorHalf; apply Z.div_pos; lia).
  cbn [bind]. now rewrite IH.
Qed.

Lemma centerWrap_run (text w : jsstring) (width : Z) (fuel : nat) :
  0 <= width -> Wrapped width text w ->
  wrapText fuel text width = Ret w ->
  centerWrap fuel text width
  = Ret (join [LF] (map (centered width) (splitOn LF w))).
Proof.
  intros Hw HW Hrun. unfold centerWrap. rewrite Hrun. cbn [bind].
  rewrite center_lines by (now apply (Wrapped_lines width text)).
  reflexivity.
Qed.

(** A text without line break that fits is centered on one line. *)
Lemma centerWrap_single_line (text : jsstring) (width : Z) (fuel : nat) :
  len text <= width -> singleLine text -> (0 < fuel)%nat ->
  centerWrap fuel text width = Ret (centered width text).
Proof.
  intros Hfit Hline Hfuel. pose proof (len_nonneg text).
  rewrite (centerWrap_run text text width fuel);
    [| lia | now apply Wrapped_fits |].
  - now rewrite splitOn_no_sep by exact Hline.
  - destruct fuel as [|fuel]; [lia|].
    unfold wrapText. simpl.
    now replace (len text >? width) with false by lia.
Qed.

End CenteringMore.

(** X4. For a width of at least one, [centerWrap] returns and never raises
    (no padding count is negative), and no physical line of its result is
    longer than the width. *)
Theorem centerWrap_width_respect (text : jsstring) (width : Z) :
  1 <= width ->
  exists centeredText,
    (forall fuel, (List.length text < fuel)%nat ->
                  InvoiceFormatterW.centerWrap fuel text width = Ret centeredText)
    /\ Forall (fun line => len line <= width) (splitOn LF centeredText).
Proof.
  intros Hw.
  destruct (wrapText_returns text width Hw) as (w & HW & Hrun).
  exists (join [LF] (map (centered width) (splitOn LF w))). split.
  - intros fuel Hfuel. apply (centerWrap_run text w); [lia | exact HW|].
    now apply Hrun.
  - pose proof (Wrapped_lines width text w ltac:(lia) HW) as Hfit.
    pose proof (splitOn_lines_clean LF w) as Hclean.
    rewrite splitOn_join.
    + apply Forall_map. eapply Forall_impl; [|exact Hfit].
      intros line Hline. now apply centered_length.
    + intros E. apply map_eq_nil in E. now apply splitOn_not_nil in E.
    + apply Forall_map. eapply Forall_impl; [|exact Hclean].
      intros line Hline. now apply centered_clean.
Qed.

Lemma centerWrap_width_respect_witness :
  exists centeredText,
    (forall fuel, (List.length (lit "Thank you for your purchase!") < fuel)%nat ->
                  InvoiceFormatterW.centerWrap fuel
                    (lit "Thank you for your purchase!") 12
                  = Ret centeredText)
    /\ Forall (fun line => len line <= 12) (splitOn LF centeredText).
Proof.
  apply (centerWrap_width_respect (lit "Thank you for your purchase!") 12).
  lia.
Defined.

(** X5. A text without line break that fits the width is centered on one
    line: [centerWrap] returns it after [floor((width - len text) / 2)]
    spaces, with no trailing spaces; the margin left of it is the margin
    right of it, or one column less. The empty text yields [floor(width / 2)]
    spaces. *)
Theorem centerWrap_fits (text : jsstring) (width : Z) (fuel : nat) :
  len text <= width ->
  singleLine text ->
  (0 < fuel)%nat ->
  let margin := (width - len text) / 2 in
  InvoiceFormatterW.centerWrap fuel text width
  = Ret (copies [SP] (Z.to_nat margin) ++ text)
  /\ 0 <= margin
  /\ margin <= width - len text - margin <= margin + 1.
Proof.
  intros Hfit Hline Hfuel margin.
  assert (Hmargin : 0 <= margin) by (apply Z.div_pos; lia).
  split; [|split; [exact Hmargin|]].
  - now apply centerWrap_single_line.
  - subst margin.
    pose proof (Z.div_mod (width - len text) 2 ltac:(lia)).
    pose proof (Z.mod_pos_bound (width - len text) 2 ltac:(lia)). lia.
Qed.

Lemma centerWrap_fits_witness :
  InvoiceFormatterW.centerWrap 1 (lit "Thanks") 48
  = Ret (copies [SP] (Z.to_nat ((48 - len (lit "Thanks")) / 2)) ++ lit "Thanks")
  /\ 0 <= (48 - len (lit "Thanks")) / 2
  /\ (48 - len (lit "Thanks")) / 2
     <= 48 - len (lit "Thanks") - (48 - len (lit "Thanks")) / 2
     <= (48 - len (lit "Thanks")) / 2 + 1.
Proof.
  apply (centerWrap_fits (lit "Thanks") 48 1).
  - vm_compute. discriminate.
  - unfold singleLine. vm_compute. intuition discriminate.
  - lia.
Defined.

(** X6. [leftRightText] never cuts its texts: its line is
    [max(totalWidth, len left + len right)] long, and when the two texts
    fill the width or more it is [left] directly followed by [right], with
    no space between them. Both copies of the codec. *)
Theorem leftRightText_length (left right : jsstring) (totalWidth : Z) :
  len (EscposCommands.leftRightText left right totalWidth)
  = Z.max totalWidth (len left + len right)
  /\ len (EscposCommands2.leftRightText left right totalWidth)
     = Z.max totalWidth (len left + len right)
  /\ (totalWidth <= len left + len right ->
      EscposCommands.leftRightText left right totalWidth = left ++ right
      /\ EscposCommands2.leftRightText left right totalWidth = left ++ right).
Proof.
  unfold EscposCommands2.leftRightText, EscposCommands.leftRightText.
  pose proof (len_nonneg left). pose proof (len_nonneg right).
  destruct (totalWidth - len left - len right >? 0) eqn:Hgap.
  - rewrite !len_app, len_copies_char.
    split; [lia|]. split; [lia|]. intros Hfull. lia.
  - cbn [app]. rewrite !len_app.
    split; [lia|]. split; [lia|]. intros _. split; reflexivity.
Qed.

Lemma leftRightText_length_witness :
  EscposCommands.leftRightText (lit "SHUMA PA TVSH") (lit "1250L") 16
  = lit "SHUMA PA TVSH" ++ lit "1250L"
  /\ EscposCommands2.leftRightText (lit "SHUMA PA TVSH") (lit "1250L") 16
     = lit "SHUMA PA TVSH" ++ lit "1250L".
Proof.
  apply (proj2 (proj2 (leftRightText_length (lit "SHUMA PA TVSH")
                         (lit "1250L") 16))).
  vm_compute. discriminate.
Defined.

(** X7. When the right text holds no line break and is shorter than the
    width, [leftRightTextWrapped] keeps to the width whatever the left text
    is: it returns, the first physical line of its result is exactly [width]
    long, and no line is longer. *)
Theorem leftRightTextWrapped_width_respect (left right : jsstring) (width : Z) :
  singleLine right ->
  len right < width ->
  exists result,
    (forall fuel, (List.length left < fuel)%nat ->
                  InvoiceFormatterW.leftRightTextWrapped fuel left right width
                  = Ret result)
    /\ len (hd [] (splitOn LF result)) = width
    /\ Forall (fun line => len line <= width) (splitOn LF result).
Proof.
  intros Hright Hroom.
  destruct (wrapText_returns left (width - len right)) as (w & HW & Hrun);
    [lia|].
  pose proof (Wrapped_lines (width - len right) left w ltac:(lia) HW) as Hfit.
  pose proof (splitOn_lines_clean LF w) as Hclean.
  pose proof (splitOn_not_nil LF w) as Hnil.
  destruct (splitOn LF w) as [|line rest] eqn:E; [contradiction|].
  inversion Hfit as [|? ? Hline Hrest]; subst.
  inversion Hclean as [|? ? Hcl Hcrest]; subst.
  cbv beta in Hline, Hcl.
  exists (padEnd line (width - len right) ++ right
            ++ concat (map (fun l => LF :: l) rest)).
  assert (Hsplit : splitOn LF (padEnd line (width - len right) ++ right
                                 ++ concat (map (fun l => LF :: l) rest))
                   = (padEnd line (width - len right) ++ right) :: rest).
  { rewrite app_assoc. apply splitOn_concat_lines; [|exact Hcrest].
    apply singleLine_app; [|exact Hright]. unfold padEnd.
    apply singleLine_app; [exact Hcl | apply copies_space_singleLine]. }
  assert (Hfirst : len (padEnd line (width - len right) ++ right) = width).
  { unfold padEnd. rewrite !len_app, len_copies_char.
    pose proof (len_nonneg line). lia. }
  split; [|split].
  - intros fuel Hfuel. unfold InvoiceFormatterW.leftRightTextWrapped.
    replace (width - len right <=? 0) with false by lia.
    rewrite Hrun by exact Hfuel. cbn [bind]. rewrite E.
    now rewrite leftLines_forEach_first.
  - rewrite Hsplit. exact Hfirst.
  - rewrite Hsplit. constructor; [lia|].
    pose proof (len_nonneg right).
    eapply Forall_impl; [|exact Hrest]. cbv beta. intros; lia.
Qed.

Lemma leftRightTextWrapped_width_respect_witness :
  exists result,
    (forall fuel, (List.length (lit "Cappuccino grande") < fuel)%nat ->
                  InvoiceFormatterW.leftRightTextWrapped fuel
                    (lit "Cappuccino grande") (lit "250.00L") 16
                  = Ret result)
    /\ len (hd [] (splitOn LF result)) = 16
    /\ Forall (fun line => len line <= 16) (splitOn LF result).
Proof.
  apply (leftRightTextWrapped_width_respect (lit "Cappuccino grande")
           (lit "250.00L") 16).
  - unfold singleLine. vm_compute. intuition discriminate.
  - vm_compute. reflexivity.
Defined.

(** * Further properties of the command codec *)

Section CodecMore.

Lemma low_byte_of_uint16 (n : Z) : (n mod 65536) mod 256 = n mod 256.
Proof.
  rewrite (Z.div_mod n 65536) at 2 by lia.
  replace (65536 * (n / 65536) + n mod 65536)
    with (n mod 65536 + (256 * (n / 65536)) * 256) by lia.
  now rewrite Z.mod_add by lia.
Qed.

Lemma latin1_length (commands : jsstring) :
  List.length (Server.latin1 commands) = List.length commands.
Proof. unfold Server.latin1. apply length_map. Qed.

Lemma latin1_bytes (commands : jsstring) :
  Forall (fun byte => (byte < 256)%N) (Server.latin1 commands).
Proof.
  unfold Server.latin1. apply Forall_map.
  apply Forall_forall. intros c _. apply N.mod_lt. discriminate.
Qed.

Lemma latin1_small (commands : jsstring) :
  Forall (fun c => (c < 256)%N) commands -> Server.latin1 commands = commands.
Proof.
  unfold Server.latin1. induction 1 as [|c rest Hc _ IH]; [reflexivity|].
  simpl. now rewrite IH, N.mod_small.
Qed.

End CodecMore.

(** X8. Whatever the requested module size and the payload, the QR command
    of either codec is [len data + 47] code units long, and its module-size
    byte (at index 19) is the clamped size, a value from 1 to 8. *)
Theorem printQRCode_layout (data : jsstring) (moduleSize : Z) :
  let size := Z.max 1 (Z.min moduleSize 8) in
  (len (EscposCommands.printQRCode data moduleSize) = len data + 47
   /\ nth 19 (EscposCommands.printQRCode data moduleSize) 0%N = Z.to_N size)
  /\ (len (EscposCommands2.printQRCode data moduleSize) = len data + 47
      /\ nth 19 (EscposCommands2.printQRCode data moduleSize) 0%N = Z.to_N size)
  /\ 1 <= size <= 8.
Proof.
  intros size. pose proof (clamp_range moduleSize) as Hsize. fold size in Hsize.
  unfold EscposCommands.printQRCode, EscposCommands2.printQRCode.
  fold size.
  unfold EscposCommands.sizeCommand, EscposCommands2.sizeCommand,
    EscposCommands.storeCommand, EscposCommands2.storeCommand.
  rewrite (fromCharCode_small size) by lia.
  unfold fromCharCode.
  repeat split; try lia.
  all: rewrite ?len_app; unfold len; simpl List.length; lia.
Qed.

(** X9. The two prefix bytes of the store-data command hold
    [(len data + 3) mod 65536]: the stored length is the real one exactly
    for payloads of fewer than 65533 code units, and wraps around
    beyond. *)
Theorem storeCommand_stored_length (data : jsstring) :
  storedLength (EscposCommands.storeCommand data) = (len data + 3) mod 65536
  /\ storedLength (EscposCommands2.storeCommand data) = (len data + 3) mod 65536
  /\ (storedLength (EscposCommands.storeCommand data) = len data + 3
      <-> len data < 65533).
Proof.
  destruct (storeCommand_bytes data) as [-> ->].
  assert (Hstored : storedLength (storeCommandBytes data)
                    = (len data + 3) mod 65536).
  { unfold storedLength, storeCommandBytes. cbn [app nth].
    pose proof (Z.mod_pos_bound (len data + 3) 256 ltac:(lia)).
    pose proof (Z.mod_pos_bound ((len data + 3) / 256) 256 ltac:(lia)).
    rewrite !Z2N.id by lia.
    change 65536 with (256 * 256).
    now rewrite Z.rem_mul_r by lia. }
  rewrite Hstored. split; [reflexivity|]. split; [reflexivity|].
  pose proof (len_nonneg data).
  pose proof (Z.mod_pos_bound (len data + 3) 65536 ltac:(lia)).
  split.
  - intros Heq. lia.
  - intros Hsmall. apply Z.mod_small. lia.
Qed.

Lemma storeCommand_stored_length_witness :
  storedLength (EscposCommands.storeCommand (lit "https://example.com/invoice/123"))
  = len (lit "https://example.com/invoice/123") + 3.
Proof.
  apply (proj2 (proj2 (storeCommand_stored_length
                         (lit "https://example.com/invoice/123")))).
  vm_compute. reflexivity.
Defined.

(** X10. [printQRCodeWithLevel] never prints the module size 16 its
    comment gives for level 1: the size is clamped, so level 1 yields the
    bytes of module size 8, level 2 those of 6, level 3 those of 4 and every
    other level those of 2. *)
Theorem printQRCodeWithLevel_sizes (data : jsstring) (level : Z) :
  EscposCommands.printQRCodeWithLevel data level
  = EscposCommands.printQRCode data
      (if level =? 1 then 8 else if level =? 2 then 6
       else if level =? 3 then 4 else 2).
Proof.
  unfold EscposCommands.printQRCodeWithLevel.
  destruct (level =? 1); [|reflexivity].
  now rewrite (proj1 (printQRCode_clamped data 16)).
Qed.

(** X11. Once encoded as latin1, the feed command of [addBreaks(n)] holds
    the low byte of [n]: a count of 256 or more wraps around instead of
    being refused or clamped. Both copies of the codec. *)
Theorem addBreaks_wraps (n : Z) :
  Server.latin1 (EscposCommands.addBreaks n) = [0x1B; 0x64; Z.to_N (n mod 256)]%N
  /\ Server.latin1 (EscposCommands2.addBreaks n)
     = [0x1B; 0x64; Z.to_N (n mod 256)]%N.
Proof.
  assert (Hbyte : (Z.to_N (toUint16 n) mod 256)%N = Z.to_N (n mod 256)).
  { unfold toUint16.
    pose proof (Z.mod_pos_bound n 65536 ltac:(lia)).
    change 256%N with (Z.to_N 256).
    rewrite <- Z2N.inj_mod by lia.
    now rewrite low_byte_of_uint16. }
  unfold EscposCommands.addBreaks, EscposCommands2.addBreaks, fromCharCode,
    Server.latin1.
  cbn [lit list_ascii_of_string map app].
  rewrite Hbyte. split; reflexivity.
Qed.

(** X12. The latin1 encoding applied before a write keeps the number of
    code units, yields bytes only, changes nothing in a string of code units
    below 256, and is idempotent. *)
Theorem latin1_encoding (commands : jsstring) :
  len (Server.latin1 commands) = len commands
  /\ Forall (fun byte => (byte < 256)%N) (Server.latin1 commands)
  /\ (Forall (fun c => (c < 256)%N) commands ->
      Server.latin1 commands = commands)
  /\ Server.latin1 (Server.latin1 commands) = Server.latin1 commands.
Proof.
  split; [|split; [|split]].
  - unfold len. now rewrite latin1_length.
  - apply latin1_bytes.
  - apply latin1_small.
  - apply latin1_small, latin1_bytes.
Qed.

Lemma latin1_encoding_witness :
  Server.latin1 (EscposCommands.reset ++ lit "Thanks")
  = EscposCommands.reset ++ lit "Thanks".
Proof.
  apply (proj1 (proj2 (proj2 (latin1_encoding
                                (EscposCommands.reset ++ lit "Thanks"))))).
  vm_compute. repeat constructor.
Defined.

(** X13. The two copies of the codec agree on [setTextSize] exactly from
    level 1 on: below 1 the copy in app.js selects the largest size where
    [escpos-commands.ts] selects the normal one. *)
Theorem setTextSize_copies (level : Z) :
  EscposCommands.setTextSize level = EscposCommands2.setTextSize level
  <-> 1 <= level.
Proof.
  unfold EscposCommands.setTextSize, EscposCommands2.setTextSize.
  destruct (Z.eqb_spec level 1) as [-> | N1].
  - simpl. split; [lia | reflexivity].
  - destruct (Z.leb_spec level 1) as [Hle | Hgt].
    + destruct (Z.eqb_spec level 2) as [-> | N2]; [lia|].
      split; [discriminate | lia].
    + split; [lia | reflexivity].
Qed.

Lemma setTextSize_copies_witness :
  EscposCommands.setTextSize 2 = EscposCommands2.setTextSize 2.
Proof. apply (proj2 (setTextSize_copies 2)). lia. Defined.

(** * Further properties of the formatters *)

Lemma suffix_app (a b suffix : jsstring) :
  (exists before, b = before ++ suffix) ->
  exists before, a ++ b = before ++ suffix.
Proof. intros [before ->]. exists (a ++ before). now rewrite app_assoc. Qed.

Lemma suffix_cons (c : char) (b suffix : jsstring) :
  (exists before, b = before ++ suffix) ->
  exists before, c :: b = before ++ suffix.
Proof. intros [before ->]. now exists (c :: before). Qed.

Ltac find_suffix :=
  first [ now exists []
        | apply suffix_app; find_suffix
        | apply suffix_cons; find_suffix ].

Ltac ends_with suffix :=
  match goal with
  | |- endsWith ?c _ = true =>
      let Hs := fresh "Hs" in
      let before := fresh "before" in
      assert (Hs : exists before, c = before ++ suffix) by find_suffix;
      destruct Hs as [before Hs]; rewrite Hs; apply endsWith_app
  end.

Section FormatterMore.

Import InvoiceFormatterW.

Context {num : Type} {N : JSNumber num}.

Lemma bind_Ret {A B} (m : outcome A) (k : A -> outcome B) (b : B) :
  (x <- m ;; k x) = Ret b -> exists a, m = Ret a /\ k a = Ret b.
Proof. destruct m as [a| |]; simpl; [eauto | discriminate | discriminate]. Qed.

Lemma dottedLineLocal_negative (width : Z) :
  width < 0 -> dottedLineLocal width = Throw RangeError.
Proof.
  intros Hw. unfold dottedLineLocal, repeatStr.
  now replace (width <? 0) with true by lia.
Qed.

(** With a negative width the details section never comes to an end: a
    field is wrapped forever, or the dotted line raises. *)
Lemma detailsSection_negative (fuel : nat) (invoice : Invoice num) (width : Z)
  (details : jsstring) :
  width < 0 -> detailsSection fuel invoice width <> Ret details.
Proof.
  intros Hw Hrun. unfold detailsSection in Hrun.
  repeat (apply bind_Ret in Hrun; destruct Hrun as (? & ? & Hrun)).
  match goal with
  | Hdots : dottedLineLocal _ = Ret _ |- _ =>
      rewrite dottedLineLocal_negative in Hdots by exact Hw; discriminate
  end.
Qed.

Lemma headerSection_starts (fuel : nat) (invoice : Invoice num) (width : Z)
  (head : jsstring) :
  headerSection fuel invoice width = Ret head ->
  exists rest, head = EscposCommands2.centerText width ++ rest.
Proof.
  unfold headerSection. intros Hrun.
  repeat (apply bind_Ret in Hrun; destruct Hrun as (? & _ & Hrun)).
  injection Hrun as <-. eexists. reflexivity.
Qed.

Lemma trailerSection_ends (fuel : nat) (invoice : Invoice num) (width : Z)
  (trailer : jsstring) :
  trailerSection fuel invoice width = Ret trailer ->
  exists before, trailer = before ++ EscposCommands2.addBreaks 4.
Proof.
  unfold trailerSection. intros Hrun.
  repeat (apply bind_Ret in Hrun; destruct Hrun as (? & _ & Hrun)).
  injection Hrun as <-. find_suffix.
Qed.

Lemma formatInvoice_wrapped_sections (fuel : nat) (invoice : Invoice num)
  (printerWidth : option Z) (commands : jsstring) :
  formatInvoice fuel (VObject invoice) printerWidth = Ret commands ->
  let width := match printerWidth with
               | Some w => if w =? 0 then 48 else w
               | None => 48
               end in
  exists head details products totals trailer,
    headerSection fuel invoice width = Ret head
    /\ detailsSection fuel invoice width = Ret details
    /\ trailerSection fuel invoice width = Ret trailer
    /\ commands = head ++ details ++ products ++ totals ++ trailer.
Proof.
  intros Hrun width. unfold formatInvoice in Hrun.
  rewrite guard_object in Hrun. fold width in Hrun.
  apply bind_Ret in Hrun. destruct Hrun as (head & Hhead & Hrun).
  apply bind_Ret in Hrun. destruct Hrun as (details & Hdetails & Hrun).
  apply bind_Ret in Hrun. destruct Hrun as (products & _ & Hrun).
  apply bind_Ret in Hrun. destruct Hrun as (totals & _ & Hrun).
  apply bind_Ret in Hrun. destruct Hrun as (trailer & Htrailer & Hrun).
  injection Hrun as <-. exists head, details, products, totals, trailer. auto.
Qed.

End FormatterMore.

(** X14. With a negative printer width the width-aware [formatInvoice]
    never returns commands for an invoice object, whatever its fields: it
    wraps a field forever or raises at the dotted line. *)
Theorem formatInvoice_negative_width_fails :
  forall (num : Type) (N : JSNumber num) (invoice : Invoice num)
         (width : Z) (fuel : nat) (commands : jsstring),
    width < 0 ->
    InvoiceFormatterW.formatInvoice fuel (VObject invoice) (Some width)
    <> Ret commands.
Proof.
  intros num N invoice width fuel commands Hw Hrun.
  apply formatInvoice_wrapped_sections in Hrun.
  destruct Hrun as (head & details & _ & _ & _ & _ & Hdetails & _).
  replace (width =? 0) with false in Hdetails by lia.
  now apply detailsSection_negative in Hdetails.
Qed.

Lemma formatInvoice_negative_width_fails_witness :
  -5 < 0
  /\ InvoiceFormatterW.formatInvoice 9 (VObject (@emptyInvoice Z)) (Some (-5))
     <> Ret [].
Proof.
  split; [lia|].
  apply (formatInvoice_negative_width_fails Z IntegerAmount emptyInvoice (-5)).
  lia.
Defined.

(** X15. Whatever an invoice object holds, the commands either formatter
    returns for it begin with the center-alignment command [ESC a 1] and
    end with the four-line feed [ESC d 4]. *)
Theorem formatInvoice_frame :
  forall (num : Type) (N : JSNumber num) (invoice : Invoice num)
         (commands : jsstring),
    (forall fuel printerWidth,
        InvoiceFormatterW.formatInvoice fuel (VObject invoice) printerWidth
        = Ret commands ->
        startsWith commands [0x1B; 0x61; 0x01]%N = true
        /\ endsWith commands [0x1B; 0x64; 0x04]%N = true)
    /\ (InvoiceFormatter.formatInvoice (VObject invoice) = Ret commands ->
        startsWith commands [0x1B; 0x61; 0x01]%N = true
        /\ endsWith commands [0x1B; 0x64; 0x04]%N = true).
Proof.
  intros num N invoice commands. split.
  - intros fuel printerWidth Hrun.
    apply formatInvoice_wrapped_sections in Hrun.
    destruct Hrun as (head & details & products & totals & trailer
                      & Hhead & _ & Htrailer & ->).
    apply headerSection_starts in Hhead. destruct Hhead as [rest ->].
    apply trailerSection_ends in Htrailer. destruct Htrailer as [before ->].
    split.
    + rewrite <- app_assoc. apply startsWith_app.
    + ends_with (EscposCommands2.addBreaks 4).
  - unfold InvoiceFormatter.formatInvoice. rewrite guard_object. intros Hrun.
    apply bind_Ret in Hrun. destruct Hrun as (dots & _ & Hrun).
    apply bind_Ret in Hrun. destruct Hrun as (products & _ & Hrun).
    apply bind_Ret in Hrun. destruct Hrun as (separator & _ & Hrun).
    injection Hrun as <-. split.
    + reflexivity.
    + ends_with (EscposCommands.addBreaks 4).
Qed.

Lemma formatInvoice_frame_witness :
  exists commands,
    InvoiceFormatter.formatInvoice (VObject (@emptyInvoice Z)) = Ret commands
    /\ startsWith commands [0x1B; 0x61; 0x01]%N = true
    /\ endsWith commands [0x1B; 0x64; 0x04]%N = true.
Proof.
  eexists. split; [reflexivity|].
  apply (proj2 (formatInvoice_frame Z IntegerAmount emptyInvoice _)).
  reflexivity.
Defined.

(** X16. For the invoice object without fields and a width of at least
    one, the width-aware formatter returns the skeleton: center, reset, the
    dotted line of [width] dots, reset, a customer line of [floor(width / 2)]
    spaces, reset, a one-line feed and the four-line feed. The customer
    line is put out although no customer field is present. *)
Theorem formatInvoice_skeleton :
  forall (num : Type) (N : JSNumber num) (width : Z) (fuel : nat),
    1 <= width ->
    (0 < fuel)%nat ->
    InvoiceFormatterW.formatInvoice fuel (VObject (@emptyInvoice num))
      (Some width)
    = Ret ([0x1B; 0x61; 0x01]%N ++ [0x1B; 0x40]%N
             ++ copies (lit ".") (Z.to_nat width) ++ [LF]
             ++ [0x1B; 0x40]%N
             ++ copies [SP] (Z.to_nat (width / 2)) ++ [LF]
             ++ [0x1B; 0x40]%N ++ [0x1B; 0x64; 0x01]%N
             ++ [0x1B; 0x64; 0x04]%N).
Proof.
  intros num N width fuel Hw Hfuel.
  unfold InvoiceFormatterW.formatInvoice. rewrite guard_object.
  replace (width =? 0) with false by lia.
  unfold InvoiceFormatterW.headerSection, InvoiceFormatterW.detailsSection,
    InvoiceFormatterW.productsSection, InvoiceFormatterW.totalsSection,
    InvoiceFormatterW.trailerSection, InvoiceFormatterW.wrappedLine,
    InvoiceFormatterW.centeredLine, InvoiceFormatterW.totalRow,
    InvoiceFormatterW.dottedLineLocal, InvoiceFormatterW.onNewLine.
  cbn [emptyInvoice header tin address invoiceType invNumber fiscString buCode
         opCode Date FiscDateRange TaxPointDate lines totalPriceNoVat
         totalDiscount vat totalPrice CustomerName CustomerTin CustomerContact
         CustomerAddress qrCode qrSize IIC FIC EIC Footer truthyStr
         InvoiceFormatterW.present orElse bind app].
  rewrite repeatStr_nonneg by lia. cbn [bind].
  rewrite (centerWrap_single_line [] width fuel);
    [| rewrite len_nil; lia | intros [] | exact Hfuel].
  unfold centered, floorHalf. rewrite len_nil, Z.sub_0_r, app_nil_r.
  cbn [bind]. rewrite <- !app_assoc. reflexivity.
Qed.

Lemma formatInvoice_skeleton_witness :
  InvoiceFormatterW.formatInvoice 1 (VObject (@emptyInvoice Z)) (Some 32)
  = Ret ([0x1B; 0x61; 0x01]%N ++ [0x1B; 0x40]%N
           ++ copies (lit ".") (Z.to_nat 32) ++ [LF]
           ++ [0x1B; 0x40]%N
           ++ copies [SP] (Z.to_nat (32 / 2)) ++ [LF]
           ++ [0x1B; 0x40]%N ++ [0x1B; 0x64; 0x01]%N
           ++ [0x1B; 0x64; 0x04]%N).
Proof.
  apply (formatInvoice_skeleton Z IntegerAmount 32 1); lia.
Defined.

(** * Further properties of the handlers *)

Section TrimMore.

Lemma trimStart_head (s t : jsstring) (c : char) :
  trimStart s = c :: t -> isWhiteSpace c = false.
Proof.
  induction s as [|d s IH]; simpl; [discriminate|].
  destruct (isWhiteSpace d) eqn:Hd; [exact IH|].
  intros [= <- _]. exact Hd.
Qed.

(** A trimmed string does not end with white space. *)
Lemma trim_last (s t : jsstring) (c : char) :
  trim s = t ++ [c] -> isWhiteSpace c = false.
Proof.
  unfold trim, trimEnd. intros Ht.
  apply (f_equal (@rev char)) in Ht.
  rewrite rev_involutive, rev_app_distr in Ht. simpl in Ht.
  now apply trimStart_head in Ht.
Qed.

Lemma delimiter_blank :
  Forall (fun c => isWhiteSpace c = true) Server.delimiter.
Proof. repeat constructor. Qed.

(** In a trimmed request, something that is not blank follows the first
    delimiter. *)
Lemma body_after_delimiter (data : jsstring) :
  0 <= indexOf (trim data) Server.delimiter ->
  trim (slice (trim data)
          (indexOf (trim data) Server.delimiter + len Server.delimiter)) <> [].
Proof.
  intros Hfound Hblank.
  destruct (indexOf_spec Server.delimiter (trim data))
    as [[Hnone _] | (pre & [post Hocc] & Hidx & _)]; [lia|].
  rewrite Hidx in Hblank. rewrite Hocc in Hblank at 1.
  rewrite app_assoc, slice_after in Hblank by (rewrite len_app; lia).
  apply trim_nil in Hblank.
  assert (Htail : Forall (fun c => isWhiteSpace c = true)
                    (Server.delimiter ++ post))
    by (apply Forall_app; split; [apply delimiter_blank | exact Hblank]).
  destruct (exists_last (l := Server.delimiter ++ post)) as (t & c & Hlast);
    [discriminate|].
  rewrite Hlast in Htail. apply Forall_app in Htail. destruct Htail as [_ Hc].
  inversion Hc as [|? ? Hws _]; subst.
  rewrite Hlast, app_assoc in Hocc. apply trim_last in Hocc. congruence.
Qed.

End TrimMore.

Section HandlersMore.

Import Server.

Context {num : Type} {N : JSNumber num}.
Variable JSON_parse : jsstring -> outcome (value num).
Variable printer : Printer.

Lemma printInvoice1_quiet (fuel : nat) (invoice : value num) :
  printInvoice1 printer fuel invoice = Ret tt
  \/ printInvoice1 printer fuel invoice = OutOfFuel.
Proof.
  unfold printInvoice1. destruct (connected printer); [|now left].
  cbn [negb]. destruct (formatAndWrite printer fuel invoice _) as [[]| |]; auto.
Qed.

Lemma printStatus2_lines (fuel : nat) (requestStr statusLine : jsstring) :
  printStatus2 JSON_parse printer fuel requestStr = Ret statusLine ->
  statusLine = status200 \/ statusLine = status400 \/ statusLine = status500.
Proof.
  unfold printStatus2.
  destruct (indexOf requestStr delimiter >=? 0); [|intros [= <-]; auto].
  destruct (negb (eqb _ [])); [|intros [= <-]; auto].
  destruct (_ <- JSON_parse _ ;; _); [| |discriminate]; intros [= <-]; auto.
Qed.

(** The responses the second handler can write. *)
Lemma onData2_responses (fuel : nat) (data response : jsstring) :
  onData2 JSON_parse printer fuel data = Ret response ->
  In response [optionsResponse2; postResponse2 status200;
               postResponse2 status400; postResponse2 status500;
               returnResponse2; forbiddenResponse2].
Proof.
  unfold onData2.
  destruct (startsWith (trim data) (lit "OPTIONS"));
    [intros [= <-]; simpl; auto|].
  destruct (startsWith (trim data) (lit "POST /print")).
  - intros Hrun. apply bind_Ret in Hrun. destruct Hrun as (line & Hline & Hrun).
    injection Hrun as <-.
    apply printStatus2_lines in Hline.
    destruct Hline as [-> | [-> | ->]]; simpl; auto.
  - destruct (startsWith (trim data) (lit "POST /ReturnToApp"));
      intros [= <-]; simpl; auto 7.
Qed.

End HandlersMore.

(** X17. In the second handler, a [POST /print] body that does not parse
    and a [printInvoice] that raises are both answered with status 500,
    not 400. *)
Theorem dispatch_failure_status :
  forall (num : Type) (N : JSNumber num)
         (JSON_parse : jsstring -> outcome (value num))
         (printer : Server.Printer) (fuel : nat) (data : jsstring),
    let requestStr := trim data in
    let body := trim (slice requestStr (indexOf requestStr Server.delimiter
                                        + len Server.delimiter)) in
    startsWith requestStr (lit "POST /print") = true ->
    0 <= indexOf requestStr Server.delimiter ->
    (exists e, JSON_parse body = Throw e)
    \/ (exists invoice e,
           JSON_parse body = Ret invoice
           /\ Server.printInvoice2 printer fuel invoice = Throw e) ->
    exists response,
      Server.onData2 JSON_parse printer fuel data = Ret response
      /\ Server.statusOf response = Some 500.
Proof.
  intros num N JSON_parse printer fuel data requestStr body Hpost Hfound Hfail.
  exists (Server.postResponse2 Server.status500). split; [|reflexivity].
  rewrite onData2_print by exact Hpost.
  unfold Server.printStatus2. fold requestStr.
  replace (indexOf requestStr Server.delimiter >=? 0) with true by lia.
  fold body.
  rewrite (eqb_nil_false body (body_after_delimiter data Hfound)).
  destruct Hfail as [[e Hparse] | (invoice & e & Hparse & Hprint)].
  - now rewrite Hparse.
  - rewrite Hparse. cbn [bind]. now rewrite Hprint.
Qed.

Lemma dispatch_failure_status_witness :
  exists response,
    Server.onData2 parseEmptyObject readyPrinter 4
      (printRequest (lit "{invNumber")) = Ret response
    /\ Server.statusOf response = Some 500.
Proof.
  apply (dispatch_failure_status Z IntegerAmount parseEmptyObject readyPrinter
           4 (printRequest (lit "{invNumber"))).
  - reflexivity.
  - vm_compute. discriminate.
  - left. exists SyntaxError. reflexivity.
Defined.

(** X18. The second handler trims the request before it looks for the
    delimiter, so whenever it finds one the body after it is not blank: its
    branch for a request with delimiter and no body is never taken, and it
    answers a [POST /print] with status 400 exactly when the trimmed request
    holds no delimiter. *)
Theorem dispatch_body_never_blank :
  forall (num : Type) (N : JSNumber num)
         (JSON_parse : jsstring -> outcome (value num))
         (printer : Server.Printer) (fuel : nat) (data : jsstring),
    let requestStr := trim data in
    (0 <= indexOf requestStr Server.delimiter ->
     trim (slice requestStr (indexOf requestStr Server.delimiter
                             + len Server.delimiter)) <> [])
    /\ (startsWith requestStr (lit "POST /print") = true ->
        (Server.onData2 JSON_parse printer fuel data
         = Ret (Server.postResponse2 Server.status400)
         <-> indexOf requestStr Server.delimiter < 0)).
Proof.
  intros num N JSON_parse printer fuel data requestStr. subst requestStr.
  split; [apply body_after_delimiter|].
  intros Hpost. rewrite onData2_print by exact Hpost. split.
  - intros Hrun.
    destruct (Z_lt_ge_dec (indexOf (trim data) Server.delimiter) 0)
      as [Hno | Hfound]; [exact Hno | exfalso].
    unfold Server.printStatus2 in Hrun.
    replace (indexOf (trim data) Server.delimiter >=? 0) with true in Hrun
      by lia.
    rewrite (eqb_nil_false _ (body_after_delimiter data ltac:(lia))) in Hrun.
    destruct (_ <- JSON_parse _ ;; _) in Hrun; cbn [bind] in Hrun;
      discriminate.
  - intros Hno. rewrite printStatus2_bad_request; [reflexivity | now left].
Qed.

Lemma dispatch_body_never_blank_witness :
  trim (slice (trim (printRequest (lit "{}")))
          (indexOf (trim (printRequest (lit "{}"))) Server.delimiter
           + len Server.delimiter)) <> []
  /\ (Server.onData2 parseEmptyObject readyPrinter 4 (lit "POST /print HTTP/1.1")
      = Ret (Server.postResponse2 Server.status400)
      <-> indexOf (trim (lit "POST /print HTTP/1.1")) Server.delimiter < 0).
Proof.
  split.
  - apply (proj1 (dispatch_body_never_blank Z IntegerAmount parseEmptyObject
                    readyPrinter 4 (printRequest (lit "{}")))).
    vm_compute. discriminate.
  - apply (proj2 (dispatch_body_never_blank Z IntegerAmount parseEmptyObject
                    readyPrinter 4 (lit "POST /print HTTP/1.1"))).
    reflexivity.
Defined.

(** X19. Whatever the request, a response of the second handler has status
    200, 204, 400, 403 or 500, declares a [Content-Length] of 0 and has an
    empty body. *)
Theorem dispatch_responses :
  forall (num : Type) (N : JSNumber num)
         (JSON_parse : jsstring -> outcome (value num))
         (printer : Server.Printer) (fuel : nat) (data response : jsstring),
    Server.onData2 JSON_parse printer fuel data = Ret response ->
    In (Server.statusOf response) [Some 200; Some 204; Some 400; Some 403; Some 500]
    /\ contentLengthOf response = Some 0
    /\ Server.bodyOf response = [].
Proof.
  intros num N JSON_parse printer fuel data response Hrun.
  apply onData2_responses in Hrun. simpl in Hrun.
  decompose [or] Hrun; subst; try contradiction;
    (split; [simpl; auto 6 | split; reflexivity]).
Qed.

Lemma dispatch_responses_witness :
  In (Server.statusOf Server.forbiddenResponse2)
    [Some 200; Some 204; Some 400; Some 403; Some 500]
  /\ contentLengthOf Server.forbiddenResponse2 = Some 0
  /\ Server.bodyOf Server.forbiddenResponse2 = [].
Proof.
  apply (dispatch_responses Z IntegerAmount parseEmptyObject readyPrinter 4
           (requestLine "GET /status HTTP/1.1" ++ CRLF)).
  reflexivity.
Defined.

(** X20. To a request that is neither [OPTIONS] nor [POST /print], the
    first handler of App.tsx and the earliest handler answer with a
    response that declares a [Content-Length] of 19 while its body,
    [Hello from mobile!], is 18 code units long. *)
Theorem default_response_length :
  forall (num : Type) (N : JSNumber num)
         (JSON_parse : jsstring -> outcome (value num))
         (printer : Server.Printer) (connected : bool)
         (ipAddress : option jsstring) (fuel : nat) (data : jsstring),
    startsWith data (lit "POST /print") = false ->
    (startsWith data (lit "OPTIONS") = false ->
     exists response,
       Server.onData1 JSON_parse printer fuel data = Ret response
       /\ contentLengthOf response = Some 19
       /\ len (Server.bodyOf response) = 18)
    /\ (let response := fst (Server0.onData JSON_parse connected ipAddress data) in
        contentLengthOf response = Some 19
        /\ len (Server.bodyOf response) = 18).
Proof.
  intros num N JSON_parse printer connected ipAddress fuel data Hprint. split.
  - intros Hopt. exists Server.defaultResponse1.
    unfold Server.onData1. rewrite Hopt, Hprint. repeat split; reflexivity.
  - unfold Server0.onData. rewrite Hprint. split; reflexivity.
Qed.

Lemma default_response_length_witness :
  (exists response,
      Server.onData1 parseEmptyObject readyPrinter 4
        (requestLine "GET /status HTTP/1.1" ++ CRLF) = Ret response
      /\ contentLengthOf response = Some 19
      /\ len (Server.bodyOf response) = 18)
  /\ (let response :=
        fst (Server0.onData parseEmptyObject true None
               (requestLine "GET /status HTTP/1.1" ++ CRLF)) in
      contentLengthOf response = Some 19
      /\ len (Server.bodyOf response) = 18).
Proof.
  destruct (default_response_length Z IntegerAmount parseEmptyObject
              readyPrinter true None 4
              (requestLine "GET /status HTTP/1.1" ++ CRLF) eq_refl)
    as [H1 H0].
  split; [apply H1; reflexivity | exact H0].
Defined.

Section EarliestHandler.

Import Server0.

Context {num : Type} {N : JSNumber num}.
Variable JSON_parse : jsstring -> outcome (value num).
Variable connected : bool.
Variable ipAddress : option jsstring.



End EarliestHandler.





(** X23. No exception leaves a handler of App.tsx: whatever [JSON.parse],
    the formatter and the transport do, neither [data] callback raises. *)
Theorem handlers_never_raise :
  forall (num : Type) (N : JSNumber num)
         (JSON_parse : jsstring -> outcome (value num))
         (printer : Server.Printer) (fuel : nat) (data : jsstring)
         (e : jsError),
    Server.onData1 JSON_parse printer fuel data <> Throw e
    /\ Server.onData2 JSON_parse printer fuel data <> Throw e.
Proof.
  intros num N JSON_parse printer fuel data e. split.
  - unfold Server.onData1.
    destruct (startsWith data (lit "OPTIONS")); [discriminate|].
    destruct (startsWith data (lit "POST /print")); [|discriminate].
    destruct (indexOf data Server.delimiter >=? 0); [|discriminate].
    destruct (negb (eqb _ [])); [|discriminate].
    destruct (JSON_parse _) as [invoice| |]; try discriminate.
    destruct (printInvoice1_quiet printer fuel invoice) as [-> | ->];
      discriminate.
  - unfold Server.onData2.
    destruct (startsWith (trim data) (lit "OPTIONS")); [discriminate|].
    destruct (startsWith (trim data) (lit "POST /print")).
    + unfold Server.printStatus2.
      destruct (indexOf (trim data) Server.delimiter >=? 0); [|discriminate].
      destruct (negb (eqb _ [])); [|discriminate].
      destruct (_ <- JSON_parse _ ;; _); discriminate.
    + destruct (startsWith (trim data) (lit "POST /ReturnToApp"));
        discriminate.
Qed.

(** * Properties of the Bluetooth LE selection *)

Section BleFacts.

Import Ble.

Variable toLowerCase : jsstring -> jsstring.

Lemma join_nil_inv (sep : char) (items : list jsstring) :
  join [sep] items = [] -> items = [] \/ items = [[]].
Proof.
  destruct items as [|first rest]; [now left|].
  rewrite join_concat. intros E. right.
  apply app_eq_nil in E. destruct E as [-> E].
  destruct rest as [|l rest]; [reflexivity | discriminate].
Qed.

Lemma filter_first {A} (f : A -> bool) (l : list A) (x : A) (r : list A) :
  filter f l = x :: r ->
  exists before after,
    l = before ++ x :: after
    /\ Forall (fun y => f y = false) before /\ f x = true.
Proof.
  induction l as [|y l IH]; simpl; [discriminate|].
  destruct (f y) eqn:Hy.
  - intros [= -> _]. exists [], l. auto.
  - intros Hrest. destruct (IH Hrest) as (before & after & -> & Hbefore & Hx).
    exists (y :: before), after. auto.
Qed.

Lemma filter_none {A} (f : A -> bool) (l : list A) :
  Forall (fun y => f y = false) l -> filter f l = [].
Proof.
  induction 1 as [|y l Hy _ IH]; simpl; [reflexivity|]. now rewrite Hy.
Qed.

End BleFacts.

(** X24. [isWritableCharacteristic] gives the same answer for a list of
    property names written as a comma-separated string and for the array
    of the trimmed names, as long as no name holds a comma: the empty
    string and the empty array are both not writable. *)
Theorem isWritable_string_as_array :
  forall (toLowerCase : jsstring -> jsstring)
         (service characteristic : jsstring) (items : list jsstring),
    toLowerCase [] = [] ->
    Forall (fun item => ~ In 44%N item) items ->
    Ble.isWritableCharacteristic toLowerCase
      {| Ble.service := service; Ble.characteristic := characteristic;
         Ble.properties := Ble.PropsString (join [44%N] items) |}
    = Ble.isWritableCharacteristic toLowerCase
        {| Ble.service := service; Ble.characteristic := characteristic;
           Ble.properties := Ble.PropsArray (map trim items) |}.
Proof.
  intros toLowerCase service characteristic items Hlower Hclean.
  unfold Ble.isWritableCharacteristic. cbn [Ble.properties Ble.propertiesFalsy].
  destruct (join [44%N] items) as [|c joined] eqn:E.
  - apply join_nil_inv in E. destruct E as [-> | ->]; [reflexivity|].
    cbn [map existsb]. unfold Ble.isWriteName.
    change (trim []) with (@nil char). rewrite Hlower. reflexivity.
  - rewrite <- E. rewrite splitOn_join; [reflexivity | | exact Hclean].
    intros ->. discriminate.
Qed.

Lemma isWritable_string_as_array_witness :
  Ble.isWritableCharacteristic asciiLower
    {| Ble.service := lit "18f0"; Ble.characteristic := lit "2af1";
       Ble.properties :=
         Ble.PropsString
           (join [44%N] [lit "Read"; lit " WriteWithoutResponse"; lit "Notify"]) |}
  = Ble.isWritableCharacteristic asciiLower
      {| Ble.service := lit "18f0"; Ble.characteristic := lit "2af1";
         Ble.properties :=
           Ble.PropsArray
             (map trim [lit "Read"; lit " WriteWithoutResponse"; lit "Notify"]) |}.
Proof.
  apply (isWritable_string_as_array asciiLower (lit "18f0") (lit "2af1")
           [lit "Read"; lit " WriteWithoutResponse"; lit "Notify"]).
  - reflexivity.
  - repeat constructor; vm_compute; intuition discriminate.
Defined.

(** X25. [connectToDeviceNow] settles on the first writable
    characteristic in discovery order: it selects a candidate exactly when
    some characteristic is writable, and the candidate is the service and
    characteristic of the first such one. *)
Theorem selectCandidate_first_writable :
  forall (toLowerCase : jsstring -> jsstring)
         (characteristics : option (list Ble.Characteristic))
         (service characteristic : jsstring),
    Ble.selectCandidate toLowerCase characteristics
    = Ble.Candidate service characteristic
    <-> exists before first after,
          characteristics = Some (before ++ first :: after)
          /\ Forall (fun c => Ble.isWritableCharacteristic toLowerCase c = false)
               before
          /\ Ble.isWritableCharacteristic toLowerCase first = true
          /\ service = Ble.service first
          /\ characteristic = Ble.characteristic first.
Proof.
  intros toLowerCase characteristics service characteristic. split.
  - unfold Ble.selectCandidate.
    destruct characteristics as [[|c chars]|]; try discriminate.
    destruct (filter _ (c :: chars)) as [|first rest] eqn:E; [discriminate|].
    intros [= <- <-].
    apply filter_first in E.
    destruct E as (before & after & -> & Hbefore & Hfirst).
    exists before, first, after. auto.
  - intros (before & first & after & -> & Hbefore & Hfirst & -> & ->).
    unfold Ble.selectCandidate.
    destruct (before ++ first :: after) as [|c chars] eqn:E.
    + now destruct before.
    + rewrite <- E, filter_app, (filter_none _ before Hbefore).
      simpl. now rewrite Hfirst.
Qed.

Lemma selectCandidate_first_writable_witness :
  Ble.selectCandidate asciiLower
    (Some ([{| Ble.service := lit "1800"; Ble.characteristic := lit "2a00";
               Ble.properties := Ble.PropsArray [lit "Read"] |}]
             ++ {| Ble.service := lit "18f0"; Ble.characteristic := lit "2af1";
                   Ble.properties := Ble.PropsObject [lit "WriteWithoutResponse"] |}
             :: [{| Ble.service := lit "18f0"; Ble.characteristic := lit "2af0";
                    Ble.properties := Ble.PropsString (lit "Write,Notify") |}]))
  = Ble.Candidate (lit "18f0") (lit "2af1").
Proof.
  apply (proj2 (selectCandidate_first_writable asciiLower _ _ _)).
  eexists _, _, _. split; [reflexivity|].
  split; [repeat constructor|]. split; [reflexivity|]. split; reflexivity.
Defined.
